(** * Act-3.6: the planet configuration model and the orbital update of
    [src/script.js]

    The script builds a THREE.js scene; what it computes itself is
    - [PlanetConfig]: a parameter record filled in with [||] defaults,
    - [SolarSystem]: a registry (a JS [Map]) of planets, [createPlanet] and
      the per-frame [updatePlanets],
    - [tick]: the frame callback, gated by the GUI's [autoRotate].

    JS numbers are IEEE 754 binary64 values, so they are Rocq's primitive
    floats here: [+] and [*] round exactly as the script's do, [=?] and
    [<?] are JS's [===] and [<] on numbers.  [Math.cos] and [Math.sin] are
    host functions whose results ECMA-262 leaves implementation-approximated
    except at a few arguments; the approximations are parameters of the
    model.  Property values are typed as every literal of the script has
    them: numbers (colours are numbers too), a boolean for [hasRings], and
    [undefined] for what a literal omits.  THREE.js objects are records of
    the constructor arguments and of the transform fields the script
    writes. *)

From Stdlib Require Import ZArith Floats Bool String Lia.
From stdpp Require Import base list.

Set Warnings "-inexact-float".
Local Open Scope float_scope.

(* ================================================================== *)
(** ** JS values used by the script *)

(** [ToBoolean] on a number: [+0], [-0] and [NaN] are falsy. *)
Definition truthy (x : float) : bool := negb (is_zero x || is_nan x).

(** A property read on an object literal: [None] is [undefined] (the
    property was omitted), [Some x] a number.  [a || b] where both sides are
    property reads. *)
Definition or_else (a b : option float) : option float :=
  match a with
  | Some x => if truthy x then a else b
  | None => b
  end.

(** [a || d] where [d] is a literal. *)
Definition or_default (a : option float) (d : float) : float :=
  match a with
  | Some x => if truthy x then x else d
  | None => d
  end.

(** [a || false] on a boolean property. *)
Definition or_false (a : option bool) : bool :=
  match a with
  | Some b => if b then b else false
  | None => false
  end.

(* ================================================================== *)
(** ** PlanetConfig (script.js, lines 40-55) *)

(** The object literal handed to [new PlanetConfig(...)]. *)
Module Params.
Record t := mk {
  radius : option float;
  color : option float;
  atmosphereColor : option float;
  atmosphereThickness : option float;
  atmosphereOpacity : option float;
  orbitRadius : option float;
  rotationSpeed : option float;
  orbitSpeed : option float;
  hasRings : option bool;
  ringColor : option float;
  ringInnerRadius : option float;
  ringOuterRadius : option float
}.

(** [{}] *)
Definition empty : t :=
  mk None None None None None None None None None None None None.

(** [{ radius, color, orbitRadius, orbitSpeed, rotationSpeed }], the shape
    of six of the eight literals of the script. *)
Definition basic (r c oR oS rS : float) : t :=
  mk (Some r) (Some c) None None None (Some oR) (Some rS) (Some oS)
     None None None None.
End Params.

Record PlanetConfig := {
  radius : float;
  color : float;
  atmosphereColor : float;
  atmosphereThickness : float;
  atmosphereOpacity : float;
  orbitRadius : float;
  rotationSpeed : float;
  orbitSpeed : float;
  hasRings : bool;
  ringColor : float;
  ringInnerRadius : option float;
  ringOuterRadius : option float
}.

Definition white : float := 0xffffff.

Definition PlanetConfig_constructor (params : Params.t) : PlanetConfig :=
  {| radius := or_default (Params.radius params) 1;
     color := or_default (Params.color params) white;
     atmosphereColor :=
       or_default (or_else (Params.atmosphereColor params)
                           (Params.color params)) white;
     atmosphereThickness := or_default (Params.atmosphereThickness params) 0.1;
     atmosphereOpacity := or_default (Params.atmosphereOpacity params) 0.2;
     orbitRadius := or_default (Params.orbitRadius params) 0;
     rotationSpeed := or_default (Params.rotationSpeed params) 0.005;
     orbitSpeed := or_default (Params.orbitSpeed params) 0.001;
     hasRings := or_false (Params.hasRings params);
     ringColor := or_default (Params.ringColor params) white;
     ringInnerRadius := Params.ringInnerRadius params;
     ringOuterRadius := Params.ringOuterRadius params |}.

(** [planetConfigs] (lines 192-255), in the order of the literal. *)
Definition earth_params : Params.t :=
  Params.mk (Some 1.4) (Some 0x2233ff) (Some 0x4477ff) None (Some 0.2)
            (Some 45) (Some 0.005) (Some 0.006) None None None None.

Definition saturn_params : Params.t :=
  Params.mk (Some 3.5) (Some 0xead6b8) None None None
            (Some 90) (Some 0.006) (Some 0.003)
            (Some true) (Some 0xc2b280) (Some 4.5) (Some 7).

Definition planetConfigs : list (string * PlanetConfig) :=
  [ ("mercury"%string,
     PlanetConfig_constructor (Params.basic 0.8 0xa8a8a8 15 0.008 0.004));
    ("venus"%string,
     PlanetConfig_constructor (Params.basic 1.2 0xe6b88a 30 0.007 0.003));
    ("earth"%string, PlanetConfig_constructor earth_params);
    ("mars"%string,
     PlanetConfig_constructor (Params.basic 1.0 0xff4422 60 0.005 0.004));
    ("jupiter"%string,
     PlanetConfig_constructor (Params.basic 4.0 0xd8ca9d 75 0.004 0.007));
    ("saturn"%string, PlanetConfig_constructor saturn_params);
    ("uranus"%string,
     PlanetConfig_constructor (Params.basic 2.5 0x88ccff 105 0.002 0.005));
    ("neptune"%string,
     PlanetConfig_constructor (Params.basic 2.3 0x3456ff 120 0.001 0.005)) ].

(* ================================================================== *)
(** ** The JS [Map] of the registry *)

(** A [Map] iterates in insertion order; [set] on a present key replaces
    the value where it stands, on a fresh key it appends. *)
Module JsMap.
Section Ops.
Context {V : Type}.

Fixpoint get (k : string) (m : list (string * V)) : option V :=
  match m with
  | [] => None
  | (k', v) :: m' => if String.eqb k k' then Some v else get k m'
  end.

Fixpoint set (k : string) (v : V) (m : list (string * V))
  : list (string * V) :=
  match m with
  | [] => [(k, v)]
  | (k', v') :: m' =>
      if String.eqb k k' then (k', v) :: m' else (k', v') :: set k v m'
  end.

Definition keys (m : list (string * V)) : list string := map fst m.

(** How many entries are stored under [k]. *)
Definition count (k : string) (m : list (string * V)) : nat :=
  length (List.filter (fun kv => String.eqb k (fst kv)) m).
End Ops.
End JsMap.

(* ================================================================== *)
(** ** THREE.js objects built by [createPlanet] *)

(** What is added to a planet's [THREE.Group], by constructor arguments.
    [RingGeometry] receives the two ring radii as the config carries them,
    [undefined] included. *)
Inductive Child :=
| Atmosphere (sphereRadius color opacity : float)
| Rings (innerRadius outerRadius : option float) (color : float)
| PlanetMesh (sphereRadius color : float).

(** A planet's group.  [mesh_rotation_y] is [rotation.y] of the
    [PlanetMesh] child, the object the registry entry also holds as
    [mesh]; a fresh [Object3D] has position (0, 0, 0) and rotation 0. *)
Record Group := {
  children : list Child;
  position_x : float;
  position_y : float;
  position_z : float;
  mesh_rotation_y : float
}.

(** A registry entry [{ group, config, mesh }].  [group] is a reference:
    the index of the group among the planets added to [planetGroup], where
    the renderer finds the same object; [mesh] is reached through it. *)
Record Entry := {
  group : nat;
  config : PlanetConfig
}.

(** The fields of a [SolarSystem] the script writes: the registry, the
    planets under [planetGroup] in the order they were added, and the
    sun's [rotation.y]. *)
Record SolarSystem := {
  planets : list (string * Entry);
  planetGroup : list Group;
  sun_rotation_y : float
}.

(** [new SolarSystem()] (lines 83-94): empty registry, fresh sun. *)
Definition SolarSystem_constructor : SolarSystem :=
  {| planets := []; planetGroup := []; sun_rotation_y := 0 |}.

Definition atmosphere_of (config : PlanetConfig) : list Child :=
  if 0 <? atmosphereOpacity config
  then [Atmosphere (radius config * (1 + atmosphereThickness config))
                   (atmosphereColor config) (atmosphereOpacity config)]
  else [].

Definition rings_of (config : PlanetConfig) : list Child :=
  if hasRings config
  then [Rings (ringInnerRadius config) (ringOuterRadius config)
              (ringColor config)]
  else [].

(** The group [createPlanet] assembles (lines 115-161). *)
Definition new_planet (config : PlanetConfig) : Group :=
  {| children := atmosphere_of config ++ rings_of config
                 ++ [PlanetMesh (radius config) (color config)];
     position_x := 0; position_y := 0; position_z := 0;
     mesh_rotation_y := 0 |}.

(** [createPlanet(name, config)] (lines 114-170): the new state and the
    returned group, as its reference. *)
Definition createPlanet (name : string) (config : PlanetConfig)
    (s : SolarSystem) : SolarSystem * nat :=
  let planet := length (planetGroup s) in
  ({| planets := JsMap.set name {| group := planet; config := config |}
                           (planets s);
      planetGroup := planetGroup s ++ [new_planet config];
      sun_rotation_y := sun_rotation_y s |},
   planet).

(** The GUI-bound [parameters] object (lines 302-305). *)
Module Parameters.
Record t := { autoRotate : bool; rotationSpeed : float }.
End Parameters.

Section Host.
(** The host's approximations of cosine and sine at finite, non-zero
    arguments. *)
Variables cos_approx sin_approx : float -> float.

(** [Math.cos] and [Math.sin]: ECMA-262 fixes the result at NaN, at the
    infinities and at the zeros. *)
Definition Math_cos (x : float) : float :=
  if is_finite x then (if is_zero x then 1 else cos_approx x) else nan.

Definition Math_sin (x : float) : float :=
  if is_finite x then (if is_zero x then x else sin_approx x) else nan.

(** The body of the [forEach] callback (lines 174-180) on the group the
    entry refers to. *)
Definition update_planet (time : float) (config : PlanetConfig)
    (g : Group) : Group :=
  let angle := time * orbitSpeed config in
  {| children := children g;
     position_x := Math_cos angle * orbitRadius config;
     position_y := position_y g;
     position_z := Math_sin angle * orbitRadius config;
     mesh_rotation_y := mesh_rotation_y g + rotationSpeed config |}.

Definition update_entry (time : float) (objects : list Group)
    (planet : string * Entry) : list Group :=
  alter (update_planet time (config (snd planet))) (group (snd planet))
        objects.

(** [updatePlanets(time)] (lines 172-185). *)
Definition updatePlanets (time : float) (s : SolarSystem) : SolarSystem :=
  {| planets := planets s;
     planetGroup := fold_left (update_entry time) (planets s) (planetGroup s);
     sun_rotation_y := sun_rotation_y s + 0.001 |}.

(** [tick] (lines 313-326), as far as the solar system goes: [now] is
    what [performance.now()] returns in this frame. *)
Definition tick (parameters : Parameters.t) (now : float)
    (s : SolarSystem) : SolarSystem :=
  if Parameters.autoRotate parameters
  then updatePlanets (now * 0.001 * Parameters.rotationSpeed parameters) s
  else s.

(** A run of frames, each with the GUI state and the clock it sees. *)
Definition run_frames (frames : list (Parameters.t * float))
    (s : SolarSystem) : SolarSystem :=
  fold_left (fun s f => tick (fst f) (snd f) s) frames s.

(** [n] calls of [updatePlanets] with the same argument. *)
Fixpoint updatePlanets_n (n : nat) (time : float) (s : SolarSystem)
  : SolarSystem :=
  match n with
  | O => s
  | S n' => updatePlanets time (updatePlanets_n n' time s)
  end.

(** The states the script can be in: a fresh system, then any calls of
    its two methods. *)
Inductive reachable : SolarSystem -> Prop :=
| reachable_new : reachable SolarSystem_constructor
| reachable_create name config s :
    reachable s -> reachable (fst (createPlanet name config s))
| reachable_update time s :
    reachable s -> reachable (updatePlanets time s).
End Host.

(** The script's own start-up (lines 189, 258-260): every entry of
    [planetConfigs] is registered on a fresh system. *)
Definition solarSystem : SolarSystem :=
  fold_left (fun s nc => fst (createPlanet (fst nc) (snd nc) s))
            planetConfigs SolarSystem_constructor.

(** Sample approximations, to run the model on concrete inputs. *)
Definition cos_sample (x : float) : float := 1 - x * x / 2.
Definition sin_sample (x : float) : float := x - x * x * x / 6.

(** The registered body's group. *)
Definition body (s : SolarSystem) (name : string) : option Group :=
  match JsMap.get name (planets s) with
  | Some e => planetGroup s !! group e
  | None => None
  end.

(* ================================================================== *)
(** ** The registry invariant *)

(** The group references held by the registry. *)
Definition refs (m : list (string * Entry)) : list nat :=
  map (fun kv => group (snd kv)) m.

(** What every state of the script satisfies: names are unique, no two
    entries share a group, every reference is to a group under
    [planetGroup], and every group lies in the plane y = 0. *)
Record wf (s : SolarSystem) : Prop := {
  wf_keys : NoDup (JsMap.keys (planets s));
  wf_refs : NoDup (refs (planets s));
  wf_bound : forall k e, (k, e) ∈ planets s -> group e < length (planetGroup s);
  wf_plane : forall i g, planetGroup s !! i = Some g -> position_y g = 0
}.

(* ================================================================== *)
(** ** The properties as the spec states them *)

(** How the spec reads a defaulted field: the default when omitted, the
    supplied value otherwise. *)
Definition kept_or (supplied : option float) (d result : float) : Prop :=
  match supplied with
  | Some x => result = x
  | None => result = d
  end.

Definition kept_or_false (supplied : option bool) (result : bool) : Prop :=
  match supplied with
  | Some b => result = b
  | None => result = false
  end.

(** What [||] gives: the default when omitted, the supplied value when it
    is truthy. *)
Definition kept_if_truthy (supplied : option float) (d result : float)
  : Prop :=
  match supplied with
  | Some x => truthy x = true -> result = x
  | None => result = d
  end.

(** Every field the record needs holds a value.  The ring radii are the
    two fields that can be [undefined], and the data model asks for them
    together with [hasRings]: a record without rings is complete without
    them. *)
Definition fully_populated (c : PlanetConfig) : Prop :=
  hasRings c = true ->
  is_Some (ringInnerRadius c) /\ is_Some (ringOuterRadius c).

(** A supplied value of a field that has no default of its own is kept. *)
Definition kept_when_supplied (supplied : option float) (result : float)
  : Prop :=
  match supplied with
  | Some x => result = x
  | None => True
  end.

(** The construction contract as the spec words it. *)
Definition construction_contract (p : Params.t) : Prop :=
  let c := PlanetConfig_constructor p in
  fully_populated c
  /\ kept_or (Params.radius p) 1 (radius c)
  /\ kept_or (Params.color p) white (color c)
  /\ kept_or (Params.atmosphereThickness p) 0.1 (atmosphereThickness c)
  /\ kept_or (Params.atmosphereOpacity p) 0.2 (atmosphereOpacity c)
  /\ kept_or (Params.orbitRadius p) 0 (orbitRadius c)
  /\ kept_or (Params.rotationSpeed p) 0.005 (rotationSpeed c)
  /\ kept_or (Params.orbitSpeed p) 0.001 (orbitSpeed c)
  /\ kept_or_false (Params.hasRings p) (hasRings c)
  /\ kept_or (Params.ringColor p) white (ringColor c)
  /\ kept_when_supplied (Params.atmosphereColor p) (atmosphereColor c)
  /\ (is_Some (Params.ringInnerRadius p) ->
      ringInnerRadius c = Params.ringInnerRadius p)
  /\ (is_Some (Params.ringOuterRadius p) ->
      ringOuterRadius c = Params.ringOuterRadius p).

(** The eight object literals of [planetConfigs], in its order. *)
Definition planetParams : list Params.t :=
  [ Params.basic 0.8 0xa8a8a8 15 0.008 0.004;
    Params.basic 1.2 0xe6b88a 30 0.007 0.003;
    earth_params;
    Params.basic 1.0 0xff4422 60 0.005 0.004;
    Params.basic 4.0 0xd8ca9d 75 0.004 0.007;
    saturn_params;
    Params.basic 2.5 0x88ccff 105 0.002 0.005;
    Params.basic 2.3 0x3456ff 120 0.001 0.005 ].

(** JS's [=== 0] on the three coordinates. *)
Definition at_origin (g : Group) : bool :=
  is_zero (position_x g) && is_zero (position_y g) && is_zero (position_z g).

(** The number [n] as a JS number. *)
Definition float_of_nat (n : nat) : float :=
  of_uint63 (Uint63.of_Z (Z.of_nat n)).

Section Stated.
Variables cos_approx sin_approx : float -> float.

Local Abbreviation Math_cos := (Math_cos cos_approx).
Local Abbreviation Math_sin := (Math_sin sin_approx).
Local Abbreviation updatePlanets := (updatePlanets cos_approx sin_approx).
Local Abbreviation updatePlanets_n := (updatePlanets_n cos_approx sin_approx).

(** C1 as the spec states it, for the body registered as [name] and one
    call [updatePlanets(time)]. *)
Definition closed_form_and_origin (s : SolarSystem) (name : string)
    (time : float) : Prop :=
  forall e, JsMap.get name (planets s) = Some e ->
  exists g, body (updatePlanets time s) name = Some g
    /\ position_x g
       = orbitRadius (config e) * Math_cos (orbitSpeed (config e) * time)
    /\ position_z g
       = orbitRadius (config e) * Math_sin (orbitSpeed (config e) * time)
    /\ position_y g = 0
    /\ (is_zero (orbitRadius (config e)) = true -> at_origin g = true).

(** C3 as the spec states it: the second call with the same [time]
    leaves x and z as the first did, and [n] calls take [rotation.y] from
    its starting value to that value plus [n * rotationSpeed]. *)
Definition idempotent_and_product (s : SolarSystem) (name : string)
    (time : float) (n : nat) : Prop :=
  forall e g0, JsMap.get name (planets s) = Some e ->
  body s name = Some g0 ->
  (exists g1 g2,
      body (updatePlanets time s) name = Some g1
      /\ body (updatePlanets time (updatePlanets time s)) name = Some g2
      /\ position_x g2 = position_x g1 /\ position_z g2 = position_z g1)
  /\ exists gn, body (updatePlanets_n n time s) name = Some gn
       /\ mesh_rotation_y gn
          = mesh_rotation_y g0 + float_of_nat n * rotationSpeed (config e).
End Stated.

(* ================================================================== *)
(** ** Inputs the properties are run on *)

(** [{ atmosphereOpacity: 0 }]: a supplied zero, no ring radii. *)
Definition clear_sky : Params.t :=
  Params.mk None None None None (Some 0) None None None None None None None.

(** [{ color: 0x000000 }]: a black body. *)
Definition black : Params.t :=
  Params.mk None (Some 0x000000) None None None None None None None None
            None None.

(** [{ hasRings: true }]: rings asked for, no radii given. *)
Definition bare_rings : Params.t :=
  Params.mk None None None None None None None None (Some true) None None
            None.

(** [{ orbitSpeed: 1e308 }]: no orbit radius, so the body sits at the
    centre. *)
Definition fast_spinner : Params.t :=
  Params.mk None None None None None None None (Some 1e308) None None None
            None.

Definition probe_system : SolarSystem :=
  fst (createPlanet "probe" (PlanetConfig_constructor fast_spinner)
                    SolarSystem_constructor).

Definition earth_entry : Entry :=
  {| group := 2; config := PlanetConfig_constructor earth_params |}.

Definition mercury_entry : Entry :=
  {| group := 0;
     config :=
       PlanetConfig_constructor (Params.basic 0.8 0xa8a8a8 15 0.008 0.004) |}.

(** Three frames with the GUI's auto-rotate switched off. *)
Definition paused_frames : list (Parameters.t * float) :=
  let off := {| Parameters.autoRotate := false;
                Parameters.rotationSpeed := 1 |} in
  [(off, 0); (off, 16.7); (off, 33.4)].

(* ================================================================== *)
(** ** The rest of the script: sun, orbit guides, stars, viewport, frames *)

(** [createSun] (lines 58-79): the sun sphere and the glow sphere added to
    it, by radius, colour and opacity. *)
Record Sun := {
  sun_radius : float;
  sun_color : float;
  sun_opacity : float;
  glow_radius : float;
  glow_color : float;
  glow_opacity : float
}.

Definition createSun : Sun :=
  {| sun_radius := 8; sun_color := 0xffdd00; sun_opacity := 0.9;
     glow_radius := 8.5; glow_color := 0xffdd00; glow_opacity := 0.3 |}.

(** The loop of [createOrbitLines] (lines 98-110): [i] is the JS counter,
    each pass adds the inner and outer radius handed to [RingGeometry]. *)
Fixpoint orbit_loop (fuel : nat) (i : float) (orbitLines : list (float * float))
  : list (float * float) :=
  match fuel with
  | O => orbitLines
  | S fuel' =>
      if i <? 8
      then let radius := (i + 1) * 15 in
           orbit_loop fuel' (i + 1)
                      (orbitLines ++ [(radius - 0.1, radius + 0.1)])
      else orbitLines
  end.

(** [createOrbitLines()]: the test [i < 8] ends the loop on its ninth
    evaluation. *)
Definition createOrbitLines : list (float * float) := orbit_loop 9 0 [].

(** The two typed arrays of [createStars] (lines 270-295). *)
Record Stars := {
  positions : list float;
  sizes : list float
}.

Section Stars.
(** What a [Float32Array] store does to a number: the rounding to
    binary32. *)
Variable fround : float -> float.
(** [Math.random]: [random k] is what call number [k] returns, counted
    from the entry of [createStars]. *)
Variable random : nat -> float.
(** The constructors of THREE.js draw from [Math.random] too: a
    [BufferGeometry], a material and an [Object3D] each get a uuid when
    they are made, and one uuid takes [uuid_draws] calls (four in
    three.js's [generateUUID]). *)
Variable uuid_draws : nat.

(** One pass of the loop (lines 277-280) at index [i], [calls] random
    numbers having been drawn before it.  A store outside a typed array's
    range is ignored. *)
Definition star_pass (i calls : nat) (st : Stars) : Stars :=
  let p0 := <[i := fround ((random calls - 0.5) * 300)]> (positions st) in
  let p1 := <[(i + 1)%nat := fround ((random (calls + 1) - 0.5) * 300)]> p0 in
  let p2 := <[(i + 2)%nat := fround ((random (calls + 2) - 0.5) * 300)]> p1 in
  {| positions := p2;
     sizes := <[(i / 3)%nat := fround (random (calls + 3) * 2)]> (sizes st) |}.

(** [for (let i = 0; i < limit; i += 3)]: the arrays and the number of
    random numbers drawn. *)
Fixpoint stars_loop (fuel i limit calls : nat) (st : Stars) : Stars * nat :=
  match fuel with
  | O => (st, calls)
  | S fuel' =>
      if (i <? limit)%nat
      then stars_loop fuel' (i + 3) limit (calls + 4) (star_pass i calls st)
      else (st, calls)
  end.

(** [createStars] for a given [starsCount] (lines 270-295), with the
    number of [Math.random] calls it has made when it returns:
    [new THREE.BufferGeometry()] draws a uuid before the loop, both arrays
    start zero filled, and [new THREE.PointsMaterial(...)] and
    [new THREE.Points(...)] draw a uuid each after it. *)
Definition createStars_of (starsCount : nat) : Stars * nat :=
  let geometry := uuid_draws in
  let filled :=
    stars_loop (S starsCount) 0 (starsCount * 3) geometry
               {| positions := replicate (starsCount * 3) 0;
                  sizes := replicate starsCount 0 |} in
  let material := (snd filled + uuid_draws)%nat in
  let points := (material + uuid_draws)%nat in
  (fst filled, points).

(** The script's [createStars], with [starsCount = 2000]. *)
Definition createStars : Stars * nat := createStars_of 2000.

(** Star [k] holds its three coordinates and its size, made from four
    consecutive random numbers in the order x, y, z, size: those after the
    geometry's uuid and the [4k] of the stars before it. *)
Definition star_filled (st : Stars) (k : nat) : Prop :=
  positions st !! (k * 3)%nat
  = Some (fround ((random (uuid_draws + k * 4) - 0.5) * 300))
  /\ positions st !! (k * 3 + 1)%nat
     = Some (fround ((random (uuid_draws + k * 4 + 1) - 0.5) * 300))
  /\ positions st !! (k * 3 + 2)%nat
     = Some (fround ((random (uuid_draws + k * 4 + 2) - 0.5) * 300))
  /\ sizes st !! k = Some (fround (random (uuid_draws + k * 4 + 3) * 2)).
End Stars.

(** [Math.min] on two numbers (ECMA-262): NaN if either is NaN, and [-0]
    counts as smaller than [+0]. *)
Definition Math_min (x y : float) : float :=
  if is_nan x || is_nan y then nan
  else if x <? y then x
  else if y <? x then y
  else if is_zero x && get_sign x then x
  else y.

(** What the script reads from [window] at start-up and on a resize. *)
Record Window := {
  innerWidth : float;
  innerHeight : float;
  devicePixelRatio : float
}.

(** The viewport state the script keeps: [sizes], the camera's aspect, and
    the renderer's size and pixel ratio. *)
Record Viewport := {
  sizes_width : float;
  sizes_height : float;
  camera_aspect : float;
  renderer_width : float;
  renderer_height : float;
  renderer_pixelRatio : float
}.

(** Start-up (lines 13-19 and 34-35). *)
Definition viewport_init (w : Window) : Viewport :=
  {| sizes_width := innerWidth w;
     sizes_height := innerHeight w;
     camera_aspect := innerWidth w / innerHeight w;
     renderer_width := innerWidth w;
     renderer_height := innerHeight w;
     renderer_pixelRatio := Math_min (devicePixelRatio w) 2 |}.

(** The [resize] listener (lines 331-340): [sizes] is written first, the
    camera and the renderer read it. *)
Definition resize (w : Window) (v : Viewport) : Viewport :=
  let width := innerWidth w in
  let height := innerHeight w in
  {| sizes_width := width;
     sizes_height := height;
     camera_aspect := width / height;
     renderer_width := width;
     renderer_height := height;
     renderer_pixelRatio := Math_min (devicePixelRatio w) 2 |}.

(** A PlanetConfig handed to the constructor as its [params]: the
    constructor reads the same property names. *)
Definition as_params (c : PlanetConfig) : Params.t :=
  Params.mk (Some (radius c)) (Some (color c)) (Some (atmosphereColor c))
            (Some (atmosphereThickness c)) (Some (atmosphereOpacity c))
            (Some (orbitRadius c)) (Some (rotationSpeed c))
            (Some (orbitSpeed c)) (Some (hasRings c)) (Some (ringColor c))
            (ringInnerRadius c) (ringOuterRadius c).

(** The time [tick] hands to [updatePlanets] in a frame (line 315). *)
Definition frame_time (f : Parameters.t * float) : float :=
  snd f * 0.001 * Parameters.rotationSpeed (fst f).

(** The frames of a run in which [autoRotate] is on. *)
Definition running (frames : list (Parameters.t * float))
  : list (Parameters.t * float) :=
  List.filter (fun f => Parameters.autoRotate (fst f)) frames.

(** A window of 1920 by 1080 on a display of pixel ratio 3. *)
Definition dense_window : Window :=
  {| innerWidth := 1920; innerHeight := 1080; devicePixelRatio := 3 |}.

(** Four frames, the GUI toggled and the multiplier moved in between. *)
Definition mixed_frames : list (Parameters.t * float) :=
  [({| Parameters.autoRotate := true; Parameters.rotationSpeed := 1 |}, 1000);
   ({| Parameters.autoRotate := false; Parameters.rotationSpeed := 1 |}, 1016);
   ({| Parameters.autoRotate := true; Parameters.rotationSpeed := 2.5 |}, 1033);
   ({| Parameters.autoRotate := false; Parameters.rotationSpeed := 2.5 |},
    1050)].

(** [{ radius: 2, atmosphereOpacity: -1 }]: an opacity below zero. *)
Definition airless : Params.t :=
  Params.mk (Some 2) None None None (Some (-1)) None None None None None
            None None.

(* ================================================================== *)
(** ** IEEE facts the script relies on *)

Section Binary64.
Lemma SFmul_comm (x y : spec_float) : SF64mul x y = SF64mul y x.
Proof.
  unfold SF64mul.
  destruct x as [sx|sx| |sx mx ex], y as [sy|sy| |sy my ey]; cbn [SFmul];
    rewrite ?(xorb_comm sx sy); try reflexivity.
  now rewrite (Pos.mul_comm mx my), (Z.add_comm ex ey).
Qed.

(** Binary64 multiplication commutes, NaN included. *)
Lemma float_mul_comm (x y : float) : x * y = y * x.
Proof. apply Prim2SF_inj. rewrite !mul_spec. apply SFmul_comm. Qed.

Lemma is_zero_spec (x : float) :
  is_zero x = true <-> exists sg, Prim2SF x = S754_zero sg.
Proof.
  unfold is_zero. rewrite FloatAxioms.eqb_spec.
  change (Prim2SF zero) with (S754_zero false).
  destruct (Prim2SF x) as [sg|sg| |sg m e]; cbn; split;
    try discriminate; try (intros [? [=]]); eauto.
  - now destruct sg.
  - now destruct sg.
Qed.

Lemma is_finite_spec (x : float) :
  is_finite x = true ->
  (exists sg, Prim2SF x = S754_zero sg)
  \/ (exists sg m e, Prim2SF x = S754_finite sg m e).
Proof.
  unfold is_finite, is_nan, is_infinity.
  rewrite !FloatAxioms.eqb_spec, abs_spec.
  change (Prim2SF infinity) with (S754_infinity false).
  destruct (Prim2SF x) as [sg|sg| |sg m e]; cbn; eauto; try discriminate.
  rewrite orb_true_r. discriminate.
Qed.

(** A finite number times a zero is a zero. *)
Lemma mul_zero_finite (c r : float) :
  is_finite c = true -> is_zero r = true -> is_zero (c * r) = true.
Proof.
  intros Hc Hr. apply is_zero_spec in Hr as [sr Hr].
  apply is_zero_spec. rewrite mul_spec, Hr. unfold SF64mul.
  destruct (is_finite_spec c Hc) as [[sc ->]|(sc & m & e & ->)];
    cbn [SFmul]; eauto.
Qed.

Lemma truthy_not_zero (x : float) : truthy x = true -> is_zero x = false.
Proof. unfold truthy. destruct (is_zero x); [discriminate|reflexivity]. Qed.
End Binary64.

(* ================================================================== *)
(** ** The registry as a [Map] *)

Module JsMapFacts.
Section Facts.
Context {V : Type}.
Implicit Types (k : string) (v : V) (m : list (string * V)).

Lemma get_set_eq k v m : JsMap.get k (JsMap.set k v m) = Some v.
Proof.
  induction m as [|[k' v'] m IH]; cbn.
  - now rewrite String.eqb_refl.
  - destruct (String.eqb k k') eqn:E; cbn; rewrite E; auto.
Qed.

Lemma get_set_ne k k' v m :
  k <> k' -> JsMap.get k' (JsMap.set k v m) = JsMap.get k' m.
Proof.
  intros Hne. induction m as [|[k0 v0] m IH]; cbn.
  - destruct (String.eqb k' k) eqn:E; [|reflexivity].
    apply String.eqb_eq in E. congruence.
  - destruct (String.eqb k k0) eqn:E; cbn; [|now rewrite IH].
    apply String.eqb_eq in E. subst k0.
    destruct (String.eqb k' k) eqn:E'; [|reflexivity].
    apply String.eqb_eq in E'. congruence.
Qed.

Lemma get_elem k v m : JsMap.get k m = Some v -> (k, v) ∈ m.
Proof.
  induction m as [|[k' v'] m IH]; cbn; [discriminate|].
  destruct (String.eqb k k') eqn:E.
  - apply String.eqb_eq in E. intros [= ->]. subst. left.
  - intros H. right. auto.
Qed.

Lemma get_None k m : JsMap.get k m = None <-> k ∉ JsMap.keys m.
Proof.
  unfold JsMap.keys. induction m as [|[k' v'] m IH]; cbn.
  - split; [intros _; apply not_elem_of_nil | reflexivity].
  - rewrite not_elem_of_cons. destruct (String.eqb k k') eqn:E.
    + apply String.eqb_eq in E. split; [discriminate | tauto].
    + apply String.eqb_neq in E. tauto.
Qed.

(** [set] keeps the key list when the key is there and appends
    otherwise: the two cases of a JS [Map]. *)
Lemma keys_set k v m :
  JsMap.keys (JsMap.set k v m)
  = match JsMap.get k m with
    | Some _ => JsMap.keys m
    | None => JsMap.keys m ++ [k]
    end.
Proof.
  unfold JsMap.keys. induction m as [|[k' v'] m IH]; cbn; [reflexivity|].
  destruct (String.eqb k k') eqn:E; cbn; [reflexivity|].
  rewrite IH. now destruct (JsMap.get k m).
Qed.

Lemma keys_set_NoDup k v m :
  NoDup (JsMap.keys m) -> NoDup (JsMap.keys (JsMap.set k v m)).
Proof.
  intros Hnd. rewrite keys_set. destruct (JsMap.get k m) eqn:E; [done|].
  apply NoDup_app. split; [done|]. split.
  - intros x Hx ->%list_elem_of_singleton. now apply get_None in E.
  - apply NoDup_singleton.
Qed.

(** What [set] leaves in the map: old values, or the new one. *)
Lemma elem_set k v k0 v0 m :
  (k0, v0) ∈ JsMap.set k v m -> (k0, v0) ∈ m \/ v0 = v.
Proof.
  induction m as [|[k' v'] m IH]; cbn.
  - intros [= -> ->]%list_elem_of_singleton. now right.
  - destruct (String.eqb k k').
    + intros [[= -> ->]|H]%elem_of_cons; [now right | left; now right].
    + intros [[= -> ->]|H]%elem_of_cons; [left; now left|].
      destruct (IH H); [left; now right | now right].
Qed.

Lemma set_NoDup_proj {A} (f : V -> A) k v m :
  NoDup (map (fun kv => f (snd kv)) m) ->
  f v ∉ map (fun kv => f (snd kv)) m ->
  NoDup (map (fun kv => f (snd kv)) (JsMap.set k v m)).
Proof.
  induction m as [|[k' v'] m IH]; cbn.
  - intros _ _. apply NoDup_singleton.
  - intros [Hv' Hm]%NoDup_cons [Hne Hv]%not_elem_of_cons.
    destruct (String.eqb k k'); cbn; apply NoDup_cons.
    + split; assumption.
    + split; [|auto].
      intros ([k0 v0] & Heq & Hin)%list_elem_of_In%in_map_iff.
      apply list_elem_of_In in Hin. cbn in Heq.
      apply elem_set in Hin as [Hin| ->]; [|congruence].
      apply Hv'. apply list_elem_of_In, in_map_iff.
      exists (k0, v0). split; [assumption | now apply list_elem_of_In].
Qed.

Lemma count_NoDup k v m :
  NoDup (JsMap.keys m) -> JsMap.get k m = Some v -> JsMap.count k m = 1%nat.
Proof.
  unfold JsMap.keys, JsMap.count.
  induction m as [|[k' v'] m IH]; cbn; [discriminate|].
  intros [Hk' Hm]%NoDup_cons. destruct (String.eqb k k') eqn:E.
  - intros _. apply String.eqb_eq in E. subst k'. cbn. f_equal.
    assert (Hnone : forall m', k ∉ map fst m' ->
              List.filter (fun kv : string * V => String.eqb k (fst kv)) m'
              = []).
    { induction m' as [|[k1 v1] m' IH']; cbn; [reflexivity|].
      intros [Hne Hin]%not_elem_of_cons.
      apply String.eqb_neq in Hne. rewrite Hne. auto. }
    now rewrite Hnone.
  - auto.
Qed.
End Facts.
End JsMapFacts.

(* ================================================================== *)
(** ** The [forEach] of [updatePlanets] and the registry invariant *)

Section ForEach.
Variables cos_approx sin_approx : float -> float.

Local Abbreviation callback := (update_planet cos_approx sin_approx).
Local Abbreviation visit := (update_entry cos_approx sin_approx).
Local Abbreviation updatePlanets := (updatePlanets cos_approx sin_approx).
Local Abbreviation reachable := (reachable cos_approx sin_approx).

Implicit Types (h : list Group) (l : list (string * Entry)).

Lemma forEach_length time l h :
  length (fold_left (visit time) l h) = length h.
Proof.
  revert h. induction l as [|p l IH]; intros h; cbn; [reflexivity|].
  rewrite IH. unfold update_entry. apply length_alter.
Qed.

(** A group no entry refers to is not touched. *)
Lemma forEach_other time l h i :
  i ∉ refs l -> fold_left (visit time) l h !! i = h !! i.
Proof.
  revert h. induction l as [|p l IH]; intros h; cbn; [reflexivity|].
  intros [Hne Hin]%not_elem_of_cons. rewrite IH by assumption.
  unfold update_entry. apply list_lookup_alter_ne. congruence.
Qed.

(** A registered group gets the callback's body applied exactly once. *)
Lemma forEach_at time l h k e :
  NoDup (refs l) -> (k, e) ∈ l ->
  fold_left (visit time) l h !! group e
  = callback time (config e) <$> h !! group e.
Proof.
  revert h. induction l as [|p l IH]; intros h Hnd Hin; cbn.
  - now apply elem_of_nil in Hin.
  - cbn in Hnd. apply NoDup_cons in Hnd as [Hp Hnd].
    apply elem_of_cons in Hin as [<-|Hin].
    + rewrite forEach_other by exact Hp.
      unfold update_entry. cbn. apply list_lookup_alter_eq.
    + rewrite IH by assumption.
      unfold update_entry. rewrite list_lookup_alter_ne; [done|].
      intros Heq. apply Hp. unfold refs.
      apply list_elem_of_In, in_map_iff. exists (k, e).
      split; [now symmetry | now apply list_elem_of_In].
Qed.

(** The callback writes neither the children nor [position.y]. *)
Lemma forEach_frame time l h i g :
  h !! i = Some g ->
  exists g', fold_left (visit time) l h !! i = Some g'
             /\ children g' = children g /\ position_y g' = position_y g.
Proof.
  revert h g. induction l as [|p l IH]; intros h g Hg; cbn; [eauto|].
  destruct (decide (group (snd p) = i)) as [<-|Hne].
  - edestruct (IH (visit time h p))
      as (g' & Hg' & Hc & Hy).
    { unfold update_entry. rewrite list_lookup_alter_eq, Hg.
      reflexivity. }
    exists g'. split; [exact Hg'|]. cbn in Hc, Hy. now split.
  - apply IH. unfold update_entry.
    now rewrite list_lookup_alter_ne.
Qed.

Lemma SolarSystem_constructor_wf : wf SolarSystem_constructor.
Proof.
  split; cbn; try apply NoDup_nil_2.
  - intros k e Hin. now apply elem_of_nil in Hin.
  - intros i g Hg. now rewrite lookup_nil in Hg.
Qed.

Lemma updatePlanets_wf time s : wf s -> wf (updatePlanets time s).
Proof.
  intros [Hk Hr Hb Hp]. split; cbn; try assumption.
  - intros k e Hin. rewrite forEach_length. eauto.
  - intros i g' Hg'.
    assert (Hlt : i < length (planetGroup s)).
    { rewrite <- (forEach_length time (planets s)).
      apply lookup_lt_is_Some. eauto. }
    apply lookup_lt_is_Some in Hlt as [g Hg].
    destruct (forEach_frame time (planets s) _ _ _ Hg) as (g2 & H2 & _ & Hy).
    rewrite Hg' in H2. injection H2 as <-. rewrite Hy. eauto.
Qed.

Lemma createPlanet_wf name cfg s : wf s -> wf (fst (createPlanet name cfg s)).
Proof.
  intros [Hk Hr Hb Hp]. split; cbn.
  - now apply JsMapFacts.keys_set_NoDup.
  - apply (JsMapFacts.set_NoDup_proj group); [exact Hr|].
    intros ([k e] & Heq & Hin)%list_elem_of_In%in_map_iff. cbn in Heq.
    apply list_elem_of_In, Hb in Hin. lia.
  - intros k e [Hin| ->]%JsMapFacts.elem_set; rewrite length_app; cbn.
    + apply Hb in Hin. lia.
    + lia.
  - intros i g [Hg|[_ Hg]]%lookup_app_Some; [eauto|].
    apply list_lookup_singleton_Some in Hg as [_ <-]. reflexivity.
Qed.

Lemma reachable_wf s : reachable s -> wf s.
Proof.
  induction 1 as [|name cfg s _ IH|time s _ IH].
  - apply SolarSystem_constructor_wf.
  - now apply createPlanet_wf.
  - now apply updatePlanets_wf.
Qed.

(** A registered body has its group, and one call of [updatePlanets]
    applies the callback's body to it. *)
Lemma body_registered s name e :
  wf s -> JsMap.get name (planets s) = Some e ->
  exists g, body s name = Some g.
Proof.
  intros Hwf Hget. unfold body. rewrite Hget.
  apply lookup_lt_is_Some. eapply wf_bound; [exact Hwf|].
  apply JsMapFacts.get_elem, Hget.
Qed.

Lemma body_updatePlanets time s name e g :
  wf s -> JsMap.get name (planets s) = Some e -> body s name = Some g ->
  body (updatePlanets time s) name
  = Some (callback time (config e) g).
Proof.
  intros Hwf Hget. unfold body. cbn. rewrite Hget. intros Hg.
  erewrite forEach_at;
    [|apply Hwf | apply JsMapFacts.get_elem, Hget].
  now rewrite Hg.
Qed.
End ForEach.

(* ================================================================== *)
(** ** PlanetConfig construction *)

Lemma or_default_kept (a : option float) (d : float) :
  kept_if_truthy a d (or_default a d).
Proof.
  destruct a as [x|]; cbn; [|reflexivity]. now intros ->.
Qed.

Lemma or_false_kept (a : option bool) : kept_or_false a (or_false a).
Proof. now destruct a as [[|]|]. Qed.

(** The script's own eight literals meet the contract as stated: every
    value they supply is truthy, and the one with [hasRings] gives both
    radii. *)
Lemma construction_contract_on_script :
  map PlanetConfig_constructor planetParams = map snd planetConfigs
  /\ Forall construction_contract planetParams.
Proof.
  split; [reflexivity|].
  repeat (apply Forall_cons; split;
          [unfold construction_contract, fully_populated; cbn;
           split_and!; try reflexivity; try discriminate; eauto|]).
  apply Forall_nil_2.
Qed.

(** C2, the claim as stated, fails at [{ hasRings: true }]: the record has
    rings switched on but both ring radii are [undefined], since the
    constructor has no default for them, so it is not fully populated.  It
    also fails at [{ atmosphereOpacity: 0 }], where the supplied 0 comes
    out as the default 0.2. *)
Lemma construction_contract_fails :
  ~ construction_contract bare_rings
  /\ hasRings (PlanetConfig_constructor bare_rings) = true
  /\ ringInnerRadius (PlanetConfig_constructor bare_rings) = None
  /\ ringOuterRadius (PlanetConfig_constructor bare_rings) = None
  /\ ~ construction_contract clear_sky
  /\ atmosphereOpacity (PlanetConfig_constructor clear_sky) = 0.2.
Proof.
  split_and!; try reflexivity.
  - intros (Hpop & _). destruct (Hpop eq_refl) as [[r Hr] _]. discriminate Hr.
  - intros (_ & _ & _ & _ & Hop & _). cbn in Hop.
    apply (f_equal (fun x => x =? 0)) in Hop. discriminate Hop.
Qed.

(** C2, amended: for every parameter set, each of the nine defaulted
    fields takes its default when omitted and keeps a supplied value that
    is truthy (a number other than 0 and NaN; [hasRings] keeps any supplied
    boolean); [atmosphereColor] keeps a supplied truthy value and, when
    omitted, is the record's [color]; the two ring radii get no default and
    are copied as supplied, [undefined] when omitted, so a record with
    rings is fully populated only when both were supplied. *)
Theorem PlanetConfig_defaults (p : Params.t) :
  let c := PlanetConfig_constructor p in
  kept_if_truthy (Params.radius p) 1 (radius c)
  /\ kept_if_truthy (Params.color p) white (color c)
  /\ kept_if_truthy (Params.atmosphereThickness p) 0.1 (atmosphereThickness c)
  /\ kept_if_truthy (Params.atmosphereOpacity p) 0.2 (atmosphereOpacity c)
  /\ kept_if_truthy (Params.orbitRadius p) 0 (orbitRadius c)
  /\ kept_if_truthy (Params.rotationSpeed p) 0.005 (rotationSpeed c)
  /\ kept_if_truthy (Params.orbitSpeed p) 0.001 (orbitSpeed c)
  /\ kept_or_false (Params.hasRings p) (hasRings c)
  /\ kept_if_truthy (Params.ringColor p) white (ringColor c)
  /\ kept_if_truthy (Params.atmosphereColor p) (color c) (atmosphereColor c)
  /\ ringInnerRadius c = Params.ringInnerRadius p
  /\ ringOuterRadius c = Params.ringOuterRadius p
  /\ (fully_populated c <->
      (hasRings c = true ->
       is_Some (Params.ringInnerRadius p)
       /\ is_Some (Params.ringOuterRadius p))).
Proof.
  cbn zeta. split_and!; try apply or_default_kept; try apply or_false_kept;
    try reflexivity.
  unfold kept_if_truthy. cbn [atmosphereColor color PlanetConfig_constructor].
  destruct (Params.atmosphereColor p) as [a|]; cbn [or_else].
  - intros Ha. rewrite Ha. cbn. now rewrite Ha.
  - unfold or_default. destruct (Params.color p) as [x|]; [|reflexivity].
    destruct (truthy x); reflexivity.
Qed.

(** With a colour that is truthy the atmosphere does take it. *)
Lemma atmosphereColor_of_color (p : Params.t) (c : float) :
  Params.atmosphereColor p = None -> Params.color p = Some c ->
  truthy c = true ->
  atmosphereColor (PlanetConfig_constructor p) = c.
Proof. intros Ha Hc Ht. cbn. rewrite Ha, Hc. cbn. now rewrite Ht. Qed.

(** C4 at [new PlanetConfig({ color: 0x000000 })]: [atmosphereColor] is
    omitted and [color] is given as black, yet the atmosphere comes out
    white, 0xffffff, not the given 0: the chain [||] takes the black 0 for
    a missing colour. *)
Theorem atmosphereColor_black :
  Params.atmosphereColor black = None
  /\ Params.color black = Some 0
  /\ atmosphereColor (PlanetConfig_constructor black) = 0xffffff
  /\ (atmosphereColor (PlanetConfig_constructor black) =? 0) = false.
Proof. repeat split. Qed.

(** The guard of [createPlanet] does drop the atmosphere of a config whose
    opacity field is 0 ... *)
Lemma atmosphere_of_zero (config : PlanetConfig) :
  is_zero (atmosphereOpacity config) = true -> atmosphere_of config = [].
Proof.
  intros Hz. unfold atmosphere_of.
  apply is_zero_spec in Hz as [sg Hz]. rewrite ltb_spec, Hz.
  change (Prim2SF 0) with (S754_zero false). now destruct sg.
Qed.

(** ... but no constructed config has that opacity: a supplied 0 is
    replaced by 0.2. *)
Lemma atmosphereOpacity_never_zero (p : Params.t) :
  is_zero (atmosphereOpacity (PlanetConfig_constructor p)) = false.
Proof.
  cbn. unfold or_default.
  destruct (Params.atmosphereOpacity p) as [x|]; [|reflexivity].
  destruct (truthy x) eqn:E; [now apply truthy_not_zero | reflexivity].
Qed.

(** C5 at [createPlanet("probe", new PlanetConfig({ atmosphereOpacity:
    0 }))]: the group gets an atmosphere shell, of opacity 0.2, in front of
    the planet mesh. *)
Theorem atmosphere_despite_zero_opacity :
  let created :=
    createPlanet "probe" (PlanetConfig_constructor clear_sky)
                 SolarSystem_constructor in
  Params.atmosphereOpacity clear_sky = Some 0
  /\ children <$> planetGroup (fst created) !! snd created
     = Some [Atmosphere (1 * (1 + 0.1)) white 0.2; PlanetMesh 1 white].
Proof. split; reflexivity. Qed.

(** C10: the two ring radii get no default: for every parameter set the
    config carries each of them exactly as supplied, [undefined] when it
    was omitted, whereas the other ten fields do get a value when omitted
    (as [{}] shows).  And [createPlanet], for every config with [hasRings]
    set, adds a ring built from the two radii the config carries, whatever
    they are, [undefined] included: the call is never refused, and the
    group it returns holds the atmosphere (if any), that ring and the
    planet mesh.  Without [hasRings] no ring is added. *)
Theorem ring_radii_not_defaulted (p : Params.t) (config : PlanetConfig)
    (name : string) (s : SolarSystem) :
  let c := PlanetConfig_constructor p in
  let created := createPlanet name config s in
  ringInnerRadius c = Params.ringInnerRadius p
  /\ ringOuterRadius c = Params.ringOuterRadius p
  /\ (Params.ringInnerRadius p = None -> ringInnerRadius c = None)
  /\ (Params.ringOuterRadius p = None -> ringOuterRadius c = None)
  /\ PlanetConfig_constructor Params.empty
     = {| radius := 1; color := white; atmosphereColor := white;
          atmosphereThickness := 0.1; atmosphereOpacity := 0.2;
          orbitRadius := 0; rotationSpeed := 0.005; orbitSpeed := 0.001;
          hasRings := false; ringColor := white;
          ringInnerRadius := None; ringOuterRadius := None |}
  /\ exists g,
       planetGroup (fst created) !! snd created = Some g
       /\ (hasRings config = true ->
           children g
           = atmosphere_of config
             ++ [Rings (ringInnerRadius config) (ringOuterRadius config)
                       (ringColor config);
                 PlanetMesh (radius config) (color config)])
       /\ (hasRings config = false ->
           children g
           = atmosphere_of config
             ++ [PlanetMesh (radius config) (color config)]).
Proof.
  cbn zeta. split_and!; try reflexivity.
  - intros H. exact H.
  - intros H. exact H.
  - exists (new_planet config). split_and!.
    + cbn. rewrite lookup_app_r by lia. now rewrite Nat.sub_diag.
    + intros Hr. unfold new_planet, rings_of. cbn. now rewrite Hr.
    + intros Hr. unfold new_planet, rings_of. cbn. now rewrite Hr.
Qed.

(** On the script's own Saturn the ring is built from the 4.5 and 7 of the
    literal; on [{ hasRings: true }] from two [undefined] radii. *)
Lemma ring_radii_not_defaulted_witness :
  (exists g,
      planetGroup (fst (createPlanet "saturn"
                          (PlanetConfig_constructor saturn_params)
                          SolarSystem_constructor)) !! 0%nat = Some g
      /\ children g
         = [Atmosphere (3.5 * (1 + 0.1)) 0xead6b8 0.2;
            Rings (Some 4.5) (Some 7) 0xc2b280;
            PlanetMesh 3.5 0xead6b8])
  /\ ringInnerRadius (PlanetConfig_constructor bare_rings) = None
  /\ ringOuterRadius (PlanetConfig_constructor bare_rings) = None
  /\ exists g,
       planetGroup (fst (createPlanet "saturn"
                           (PlanetConfig_constructor bare_rings)
                           SolarSystem_constructor)) !! 0%nat = Some g
       /\ children g
          = [Atmosphere (1 * (1 + 0.1)) white 0.2;
             Rings None None white;
             PlanetMesh 1 white].
Proof.
  pose proof (ring_radii_not_defaulted saturn_params
                (PlanetConfig_constructor saturn_params) "saturn"
                SolarSystem_constructor)
    as (_ & _ & _ & _ & _ & g1 & Hg1 & Hrings1 & _).
  pose proof (ring_radii_not_defaulted bare_rings
                (PlanetConfig_constructor bare_rings) "saturn"
                SolarSystem_constructor)
    as (_ & _ & Hin & Hout & _ & g2 & Hg2 & Hrings2 & _).
  split_and!.
  - exists g1. split; [exact Hg1 | exact (Hrings1 eq_refl)].
  - exact (Hin eq_refl).
  - exact (Hout eq_refl).
  - exists g2. split; [exact Hg2 | exact (Hrings2 eq_refl)].
Defined.

(* ================================================================== *)
(** ** Registration *)

(** C6: two calls of [createPlanet] with one name leave one entry under
    that name, the second call's: it holds the second config and the group
    the second call returned, a fresh one.  Nothing is rejected, and the
    first call's group stays under [planetGroup]. *)
Theorem createPlanet_overwrites (s : SolarSystem) (name : string)
    (c1 c2 : PlanetConfig) :
  wf s ->
  let first := createPlanet name c1 s in
  let second := createPlanet name c2 (fst first) in
  JsMap.get name (planets (fst second))
  = Some {| group := snd second; config := c2 |}
  /\ JsMap.count name (planets (fst second)) = 1%nat
  /\ body (fst second) name = Some (new_planet c2)
  /\ snd second <> snd first
  /\ planetGroup (fst second) !! snd first = Some (new_planet c1).
Proof.
  intros Hwf. cbn.
  assert (Hget : JsMap.get name
                   (JsMap.set name
                      {| group := length (planetGroup s ++ [new_planet c1]);
                         config := c2 |}
                      (JsMap.set name
                         {| group := length (planetGroup s); config := c1 |}
                         (planets s)))
                 = Some {| group := length (planetGroup s ++ [new_planet c1]);
                           config := c2 |})
    by apply JsMapFacts.get_set_eq.
  repeat split.
  - exact Hget.
  - eapply JsMapFacts.count_NoDup; [|exact Hget].
    do 2 apply JsMapFacts.keys_set_NoDup. apply Hwf.
  - unfold body. cbn. rewrite Hget. cbn.
    rewrite lookup_app_r by lia. now rewrite Nat.sub_diag.
  - rewrite length_app. cbn. lia.
  - rewrite lookup_app_l by (rewrite length_app; cbn; lia).
    rewrite lookup_app_r by lia. now rewrite Nat.sub_diag.
Qed.

Lemma createPlanet_overwrites_witness :
  let first :=
    createPlanet "earth" (PlanetConfig_constructor earth_params)
                 SolarSystem_constructor in
  let second :=
    createPlanet "earth" (PlanetConfig_constructor saturn_params)
                 (fst first) in
  JsMap.get "earth" (planets (fst second))
  = Some {| group := snd second;
            config := PlanetConfig_constructor saturn_params |}
  /\ JsMap.count "earth" (planets (fst second)) = 1%nat
  /\ body (fst second) "earth"
     = Some (new_planet (PlanetConfig_constructor saturn_params))
  /\ snd second <> snd first
  /\ planetGroup (fst second) !! snd first
     = Some (new_planet (PlanetConfig_constructor earth_params)).
Proof.
  exact (createPlanet_overwrites SolarSystem_constructor "earth" _ _
           SolarSystem_constructor_wf).
Defined.

(* ================================================================== *)
(** ** The orbital update *)

(** The script's own registry is a reachable state, whatever the host. *)
Lemma solarSystem_reachable (c s : float -> float) :
  reachable c s solarSystem.
Proof.
  unfold solarSystem, planetConfigs. cbn [fold_left fst snd].
  repeat apply reachable_create. apply reachable_new.
Qed.

(** A host whose approximations are finite at finite arguments gives a
    finite cosine and sine at every finite angle. *)
Lemma Math_cos_finite (cos_approx : float -> float) (a : float) :
  (forall x, is_finite x = true -> is_finite (cos_approx x) = true) ->
  is_finite a = true -> is_finite (Math_cos cos_approx a) = true.
Proof.
  intros Hhost Ha. unfold Math_cos. rewrite Ha.
  destruct (is_zero a); [reflexivity | auto].
Qed.

Lemma Math_sin_finite (sin_approx : float -> float) (a : float) :
  (forall x, is_finite x = true -> is_finite (sin_approx x) = true) ->
  is_finite a = true -> is_finite (Math_sin sin_approx a) = true.
Proof.
  intros Hhost Ha. unfold Math_sin. rewrite Ha.
  destruct (is_zero a); [exact Ha | auto].
Qed.

Lemma tick_paused (c s : float -> float) (p : Parameters.t) (now : float)
    (sys : SolarSystem) :
  Parameters.autoRotate p = false -> tick c s p now sys = sys.
Proof. unfold tick. now intros ->. Qed.

Section Orbit.
Variables cos_approx sin_approx : float -> float.

Local Abbreviation Math_cos := (Math_cos cos_approx).
Local Abbreviation Math_sin := (Math_sin sin_approx).
Local Abbreviation updatePlanets := (updatePlanets cos_approx sin_approx).
Local Abbreviation updatePlanets_n :=
  (updatePlanets_n cos_approx sin_approx).
Local Abbreviation reachable := (reachable cos_approx sin_approx).
Local Abbreviation tick := (tick cos_approx sin_approx).
Local Abbreviation run_frames := (run_frames cos_approx sin_approx).

Lemma body_lookup s name e g :
  JsMap.get name (planets s) = Some e -> body s name = Some g ->
  planetGroup s !! group e = Some g.
Proof. unfold body. now intros ->. Qed.

Lemma updatePlanets_n_reachable n time s :
  reachable s -> reachable (updatePlanets_n n time s).
Proof. induction n; cbn; [auto | intros; apply reachable_update; auto]. Qed.

Lemma updatePlanets_n_planets n time s :
  planets (updatePlanets_n n time s) = planets s.
Proof. induction n; cbn; auto. Qed.

(** [n] calls apply the callback's body [n] times to a registered
    group. *)
Lemma body_updatePlanets_n n time s name e g :
  wf s -> JsMap.get name (planets s) = Some e -> body s name = Some g ->
  body (updatePlanets_n n time s) name
  = Some (Nat.iter n (update_planet cos_approx sin_approx time (config e)) g).
Proof.
  intros Hwf Hget Hg. induction n as [|n IH]; cbn; [exact Hg|].
  apply body_updatePlanets; [|now rewrite updatePlanets_n_planets|exact IH].
  clear IH. induction n; cbn; [exact Hwf | now apply updatePlanets_wf].
Qed.

(** The callback's body on a group in the plane y = 0, for a config with
    orbit radius 0: the group is at the origin as soon as the cosine and
    the sine it multiplies are finite. *)
Lemma update_planet_origin time c g :
  position_y g = 0 -> is_zero (orbitRadius c) = true ->
  is_finite (Math_cos (time * orbitSpeed c)) = true ->
  is_finite (Math_sin (time * orbitSpeed c)) = true ->
  at_origin (update_planet cos_approx sin_approx time c g) = true.
Proof.
  intros Hy Hz Hc Hs. unfold at_origin, update_planet.
  cbn [position_x position_y position_z].
  now rewrite Hy, !mul_zero_finite.
Qed.

(** C1, amended: after [updatePlanets(t)] every registered body has
    x = R*cos(S*t), z = R*sin(S*t) as binary64 expressions, and y = 0;
    a body with orbit radius 0 is at the origin at every [t] for which
    the cosine and the sine of S*t are finite numbers. *)
Theorem updatePlanets_position (s : SolarSystem) (name : string)
    (e : Entry) (time : float) :
  reachable s -> JsMap.get name (planets s) = Some e ->
  exists g, body (updatePlanets time s) name = Some g
    /\ position_x g
       = orbitRadius (config e) * Math_cos (orbitSpeed (config e) * time)
    /\ position_z g
       = orbitRadius (config e) * Math_sin (orbitSpeed (config e) * time)
    /\ position_y g = 0
    /\ (is_zero (orbitRadius (config e)) = true ->
        is_finite (Math_cos (orbitSpeed (config e) * time)) = true ->
        is_finite (Math_sin (orbitSpeed (config e) * time)) = true ->
        at_origin g = true).
Proof.
  intros Hwf%reachable_wf Hget.
  destruct (body_registered s name e Hwf Hget) as [g0 Hg0].
  exists (update_planet cos_approx sin_approx time (config e) g0).
  assert (Hy : position_y g0 = 0)
    by (eapply wf_plane; [exact Hwf | eapply body_lookup; eassumption]).
  split; [now apply body_updatePlanets|].
  rewrite (float_mul_comm (orbitSpeed (config e))).
  repeat split; try apply float_mul_comm; try exact Hy.
  now apply update_planet_origin.
Qed.

(** On a host whose approximations are finite at finite arguments, that
    is every [t] at which the angle S*t itself is finite. *)
Lemma origin_at_finite_angle (s : SolarSystem) (name : string) (e : Entry)
    (g : Group) (time : float) :
  (forall x, is_finite x = true -> is_finite (cos_approx x) = true) ->
  (forall x, is_finite x = true -> is_finite (sin_approx x) = true) ->
  wf s -> JsMap.get name (planets s) = Some e ->
  is_zero (orbitRadius (config e)) = true ->
  is_finite (time * orbitSpeed (config e)) = true ->
  body (updatePlanets time s) name = Some g ->
  at_origin g = true.
Proof.
  intros Hcos Hsin Hwf Hget Hz Hfin Hg.
  destruct (body_registered s name e Hwf Hget) as [g0 Hg0].
  rewrite (body_updatePlanets cos_approx sin_approx time s name e g0)
    in Hg by assumption.
  injection Hg as <-. apply update_planet_origin; try assumption.
  - eapply wf_plane; [exact Hwf | eapply body_lookup; eassumption].
  - now apply Math_cos_finite.
  - now apply Math_sin_finite.
Qed.

Lemma iter_rotation n time c g :
  mesh_rotation_y (Nat.iter n (update_planet cos_approx sin_approx time c) g)
  = Nat.iter n (fun y => y + rotationSpeed c) (mesh_rotation_y g).
Proof.
  induction n as [|n IH]; [reflexivity|].
  rewrite !Nat.iter_succ, <- IH. reflexivity.
Qed.

(** C3, amended: a second [updatePlanets(t)] leaves every registered
    body's x and z as the first call set them, and [n] calls take the
    mesh's [rotation.y] through [n] successive binary64 additions of
    [rotationSpeed] (each one rounds, so the result is the start plus
    [n * rotationSpeed] only up to rounding). *)
Theorem updatePlanets_idempotent_accumulating (s : SolarSystem)
    (name : string) (e : Entry) (g0 : Group) (time : float) :
  reachable s -> JsMap.get name (planets s) = Some e ->
  body s name = Some g0 ->
  (exists g1 g2,
      body (updatePlanets time s) name = Some g1
      /\ body (updatePlanets time (updatePlanets time s)) name = Some g2
      /\ position_x g2 = position_x g1 /\ position_z g2 = position_z g1)
  /\ forall n, exists gn,
       body (updatePlanets_n n time s) name = Some gn
       /\ mesh_rotation_y gn
          = Nat.iter n (fun y => y + rotationSpeed (config e))
                     (mesh_rotation_y g0).
Proof.
  intros Hwf%reachable_wf Hget Hg0. split.
  - pose proof (body_updatePlanets cos_approx sin_approx time s name e g0
                  Hwf Hget Hg0) as H1.
    eexists _, _. split; [exact H1|]. split.
    + eapply body_updatePlanets; [now apply updatePlanets_wf | exact Hget
                                  | exact H1].
    + split; reflexivity.
  - intros n. eexists. split.
    + eapply body_updatePlanets_n; eassumption.
    + apply iter_rotation.
Qed.

(** C7: every [updatePlanets] adds 0.001 to the sun's [rotation.y],
    whatever the time argument and the registry; so does every frame with
    [autoRotate] on, whatever the multiplier, and so does a call on a
    system with no planets. *)
Theorem sun_rotation_step (time now multiplier : float) (s : SolarSystem) :
  sun_rotation_y (updatePlanets time s) = sun_rotation_y s + 0.001
  /\ sun_rotation_y
       (tick {| Parameters.autoRotate := true;
                Parameters.rotationSpeed := multiplier |} now s)
     = sun_rotation_y s + 0.001
  /\ planets SolarSystem_constructor = []
  /\ sun_rotation_y (updatePlanets time SolarSystem_constructor)
     = sun_rotation_y SolarSystem_constructor + 0.001.
Proof. repeat split. Qed.

(** C8: [updatePlanets] leaves the registry as it was, names and configs
    included, and the same groups under [planetGroup]; in each group it
    leaves the children and [position.y], and a group no entry refers to
    is left whole. *)
Theorem updatePlanets_frame (time : float) (s : SolarSystem) :
  planets (updatePlanets time s) = planets s
  /\ JsMap.keys (planets (updatePlanets time s)) = JsMap.keys (planets s)
  /\ (forall name, config <$> JsMap.get name (planets (updatePlanets time s))
                   = config <$> JsMap.get name (planets s))
  /\ length (planetGroup (updatePlanets time s)) = length (planetGroup s)
  /\ forall i g, planetGroup s !! i = Some g ->
       exists g', planetGroup (updatePlanets time s) !! i = Some g'
         /\ children g' = children g
         /\ position_y g' = position_y g
         /\ (i ∉ refs (planets s) -> g' = g).
Proof.
  repeat split.
  - apply forEach_length.
  - intros i g Hg. cbn.
    destruct (forEach_frame cos_approx sin_approx time (planets s) _ i g Hg)
      as (g' & Hg' & Hc & Hy).
    exists g'. repeat split; try assumption.
    intros Hi. rewrite forEach_other in Hg' by exact Hi. congruence.
Qed.

(** C9: over any number of frames in which [autoRotate] is off, [tick]
    never reaches [updatePlanets]: the solar system after the frames is
    the one before them, so every body's position and rotation are as
    last computed. *)
Theorem frames_paused (frames : list (Parameters.t * float))
    (s : SolarSystem) :
  Forall (fun f => Parameters.autoRotate (fst f) = false) frames ->
  run_frames frames s = s
  /\ forall name, body (run_frames frames s) name = body s name.
Proof.
  intros Hoff.
  assert (Hrun : run_frames frames s = s).
  { induction Hoff as [|f frames Hf _ IH]; cbn; [reflexivity|].
    now rewrite tick_paused. }
  split; [exact Hrun | intros name; now rewrite Hrun].
Qed.
End Orbit.

(* ================================================================== *)
(** ** The claims on concrete runs *)

(** The spec's scenario: earth, orbit radius 45 and speed 0.006, at
    [updatePlanets(1000)]. *)
Lemma updatePlanets_position_witness :
  exists g,
    body (updatePlanets cos_sample sin_sample 1000 solarSystem) "earth"
    = Some g
    /\ position_x g = 45 * Math_cos cos_sample (0.006 * 1000)
    /\ position_z g = 45 * Math_sin sin_sample (0.006 * 1000)
    /\ position_y g = 0
    /\ (is_zero 45 = true ->
        is_finite (Math_cos cos_sample (0.006 * 1000)) = true ->
        is_finite (Math_sin sin_sample (0.006 * 1000)) = true ->
        at_origin g = true).
Proof.
  exact (updatePlanets_position cos_sample sin_sample solarSystem "earth"
           earth_entry 1000 (solarSystem_reachable _ _) eq_refl).
Defined.

(** C1, the claim as stated, fails at a body built from
    [{ orbitSpeed: 1e308 }] (orbit radius 0) and [updatePlanets(10)]: the
    angle 10 * 1e308 overflows to Infinity, whose cosine and sine are NaN,
    and NaN * 0 is NaN, so x and z are NaN, not 0. *)
Lemma origin_lost_on_overflow :
  ~ closed_form_and_origin cos_sample sin_sample probe_system "probe" 10.
Proof.
  intros H. edestruct (H _ eq_refl) as (g & Hg & _ & _ & _ & Ho).
  vm_compute in Hg. injection Hg as <-.
  specialize (Ho eq_refl). vm_compute in Ho. discriminate Ho.
Qed.

(** The overflow does not depend on the host: the position is NaN whatever
    the approximations. *)
Lemma origin_lost_any_host (c s : float -> float) :
  position_x <$> body (updatePlanets c s 10 probe_system) "probe" = Some nan
  /\ position_z <$> body (updatePlanets c s 10 probe_system) "probe"
     = Some nan.
Proof. split; reflexivity. Qed.

Lemma updatePlanets_idempotent_accumulating_witness :
  (exists g1 g2,
      body (updatePlanets cos_sample sin_sample 1 solarSystem) "mercury"
      = Some g1
      /\ body (updatePlanets cos_sample sin_sample 1
                 (updatePlanets cos_sample sin_sample 1 solarSystem))
              "mercury" = Some g2
      /\ position_x g2 = position_x g1 /\ position_z g2 = position_z g1)
  /\ forall n, exists gn,
       body (updatePlanets_n cos_sample sin_sample n 1 solarSystem) "mercury"
       = Some gn
       /\ mesh_rotation_y gn = Nat.iter n (fun y => y + 0.004) 0.
Proof.
  exact (updatePlanets_idempotent_accumulating cos_sample sin_sample
           solarSystem "mercury" mercury_entry
           (new_planet (config mercury_entry)) 1
           (solarSystem_reachable _ _) eq_refl eq_refl).
Defined.

(** C3, the claim as stated, fails on the script's own mercury
    (rotationSpeed 0.004) at 10 calls: ten additions of 0.004 from 0 give
    0.040000000000000008, and 0 + 10 * 0.004 is 0.04.  The start is 0, so
    it makes no difference whether the advance is read as a sum or as a
    difference. *)
Lemma rotation_is_not_the_product :
  ~ idempotent_and_product cos_sample sin_sample solarSystem "mercury" 1 10.
Proof.
  intros H. edestruct (H _ _ eq_refl eq_refl) as [_ (gn & Hgn & Hrot)].
  vm_compute in Hgn. injection Hgn as <-.
  vm_compute in Hrot. discriminate Hrot.
Qed.

(** The two numbers, for any host. *)
Lemma rotation_after_ten_calls (c s : float -> float) :
  mesh_rotation_y <$> body (updatePlanets_n c s 10 1 solarSystem) "mercury"
  = Some 0.040000000000000008
  /\ float_of_nat 10 * 0.004 = 0.04
  /\ (0.040000000000000008 =? 0.04) = false.
Proof. repeat split. Qed.

Lemma frames_paused_witness :
  run_frames cos_sample sin_sample paused_frames solarSystem = solarSystem
  /\ forall name,
       body (run_frames cos_sample sin_sample paused_frames solarSystem) name
       = body solarSystem name.
Proof.
  apply (frames_paused cos_sample sin_sample paused_frames solarSystem).
  repeat constructor.
Defined.

(* ================================================================== *)
(** ** The model on the script's own data *)

(** [new PlanetConfig({})]: the default table, and no ring radii. *)
Example PlanetConfig_of_empty :
  PlanetConfig_constructor Params.empty
  = {| radius := 1; color := 0xffffff; atmosphereColor := 0xffffff;
       atmosphereThickness := 0.1; atmosphereOpacity := 0.2;
       orbitRadius := 0; rotationSpeed := 0.005; orbitSpeed := 0.001;
       hasRings := false; ringColor := 0xffffff;
       ringInnerRadius := None; ringOuterRadius := None |}.
Proof. reflexivity. Qed.

(** A supplied 0 is falsy: [{ radius: 0 }] gives radius 1, and
    [{ orbitRadius: -0 }] gives [+0]. *)
Example supplied_zero_is_replaced :
  radius (PlanetConfig_constructor
            (Params.mk (Some 0) None None None None None None None None None
                       None None)) = 1
  /\ orbitRadius (PlanetConfig_constructor
                    (Params.mk None None None None None (Some (-0)) None None
                               None None None None)) = 0.
Proof. split; reflexivity. Qed.

(** At time 0 the angle is 0 for every planet, and ECMA-262 fixes
    cos 0 = 1 and sin 0 = 0: earth is at (45, 0, 0) after one call, whatever
    the host, and has spun by its 0.005. *)
Example earth_at_time_zero (c s : float -> float) :
  body (updatePlanets c s 0 solarSystem) "earth"
  = Some {| children := [Atmosphere (1.4 * (1 + 0.1)) 0x4477ff 0.2;
                         PlanetMesh 1.4 0x2233ff];
            position_x := 45; position_y := 0; position_z := 0;
            mesh_rotation_y := 0.005 |}.
Proof. reflexivity. Qed.

(** Saturn is the one planet with a ring, spanning 4.5 to 7. *)
Example saturn_rings :
  children <$> body solarSystem "saturn"
  = Some [Atmosphere (3.5 * (1 + 0.1)) 0xead6b8 0.2;
          Rings (Some 4.5) (Some 7) 0xc2b280;
          PlanetMesh 3.5 0xead6b8].
Proof. reflexivity. Qed.

(** The registry after start-up, in insertion order. *)
Example solarSystem_names :
  JsMap.keys (planets solarSystem)
  = ["mercury"; "venus"; "earth"; "mars"; "jupiter"; "saturn"; "uranus";
     "neptune"]%string.
Proof. reflexivity. Qed.

(** A frame with auto-rotate on, 2 s into the run at multiplier 1.5, is
    [updatePlanets(3)]. *)
Example tick_running (c s : float -> float) :
  tick c s {| Parameters.autoRotate := true; Parameters.rotationSpeed := 1.5 |}
       2000 solarSystem
  = updatePlanets c s 3 solarSystem.
Proof. reflexivity. Qed.


(* ================================================================== *)
(** ** More IEEE facts *)

Lemma is_nan_spec (x : float) :
  is_nan x = true <-> Prim2SF x = S754_nan.
Proof.
  unfold is_nan. rewrite FloatAxioms.eqb_spec.
  destruct (Prim2SF x) as [sg|sg| |sg m e]; cbn; split;
    try discriminate; try reflexivity.
  - now destruct sg.
  - unfold SFeqb. cbn. rewrite Z.compare_refl, Pos.compare_cont_refl.
    now destruct sg.
Qed.

(** A truthy number is an infinity or a non-zero finite number, and those
    are the truthy ones. *)
Lemma truthy_spec (x : float) :
  truthy x = true <->
  (exists sg, Prim2SF x = S754_infinity sg)
  \/ (exists sg m e, Prim2SF x = S754_finite sg m e).
Proof.
  unfold truthy. rewrite negb_true_iff, orb_false_iff.
  split.
  - intros [Hz Hn].
    destruct (Prim2SF x) as [sg|sg| |sg m e] eqn:E; eauto.
    + assert (is_zero x = true) by (apply is_zero_spec; eauto). congruence.
    + assert (is_nan x = true) by now apply is_nan_spec. congruence.
  - intros H. split.
    + destruct (is_zero x) eqn:Ez; [|reflexivity].
      apply is_zero_spec in Ez as [sg Ez].
      destruct H as [[? H]|(? & ? & ? & H)]; congruence.
    + destruct (is_nan x) eqn:En; [|reflexivity].
      apply is_nan_spec in En.
      destruct H as [[? H]|(? & ? & ? & H)]; congruence.
Qed.

(** Of a truthy number, exactly one of [0 < x] and [x < 0] holds. *)
Lemma truthy_sign (x : float) :
  truthy x = true -> (0 <? x) = negb (x <? 0).
Proof.
  intros H. rewrite !ltb_spec. change (Prim2SF 0) with (S754_zero false).
  apply truthy_spec in H as [[sg ->]|(sg & m & e & ->)]; now destruct sg.
Qed.

Lemma negative_truthy (x : float) : (x <? 0) = true -> truthy x = true.
Proof.
  rewrite ltb_spec. change (Prim2SF 0) with (S754_zero false).
  intros H. apply truthy_spec.
  destruct (Prim2SF x) as [sg|sg| |sg m e]; try discriminate; eauto.
Qed.

Lemma ltb_leb (x y : float) : (x <? y) = true -> (x <=? y) = true.
Proof.
  rewrite ltb_spec, leb_spec. unfold SFltb, SFleb.
  now destruct (SFcompare (Prim2SF x) (Prim2SF y)) as [[| |]|].
Qed.

(** NaN times anything is NaN. *)
Lemma nan_mul (r : float) : nan * r = nan.
Proof.
  apply Prim2SF_inj. rewrite mul_spec.
  change (Prim2SF nan) with S754_nan. reflexivity.
Qed.

Lemma is_zero_below_two (x : float) : is_zero x = true -> (x <? 2) = true.
Proof.
  intros [sg H]%is_zero_spec. rewrite ltb_spec, H. reflexivity.
Qed.

(** [Math.min(x, 2)] for a number [x]: [x] below 2, and 2 otherwise. *)
Lemma Math_min_two (x : float) :
  is_nan x = false ->
  Math_min x 2 = if x <? 2 then x else 2.
Proof.
  intros Hn. unfold Math_min. rewrite Hn. cbn [orb].
  change (is_nan 2) with false. cbv iota.
  destruct (x <? 2) eqn:Hlt; [reflexivity|].
  destruct (2 <? x); [reflexivity|].
  destruct (is_zero x) eqn:Hz; [|reflexivity].
  apply is_zero_below_two in Hz. congruence.
Qed.

(* ================================================================== *)
(** ** More on PlanetConfig *)

Lemma or_default_truthy (a : option float) (d : float) :
  truthy d = true -> truthy (or_default a d) = true.
Proof.
  intros Hd. unfold or_default. destruct a as [x|]; [|exact Hd].
  now destruct (truthy x) eqn:E.
Qed.

Lemma or_default_again (a : option float) (d : float) :
  or_default (Some (or_default a d)) d = or_default a d.
Proof.
  unfold or_default. destruct a as [x|].
  - destruct (truthy x) eqn:E; [now rewrite E | now destruct (truthy d)].
  - now destruct (truthy d).
Qed.

Lemma atmosphereColor_truthy (p : Params.t) :
  truthy (atmosphereColor (PlanetConfig_constructor p)) = true.
Proof. cbn. now apply or_default_truthy. Qed.

(** X1: whatever the parameter set, the constructed config holds no 0, no
    -0 and no NaN in [radius], [color], [atmosphereColor],
    [atmosphereThickness], [atmosphereOpacity], [rotationSpeed],
    [orbitSpeed] and [ringColor]; its [orbitRadius] is such a number or
    [+0]. *)
Theorem PlanetConfig_truthy (p : Params.t) :
  let c := PlanetConfig_constructor p in
  truthy (radius c) = true /\ truthy (color c) = true
  /\ truthy (atmosphereColor c) = true
  /\ truthy (atmosphereThickness c) = true
  /\ truthy (atmosphereOpacity c) = true
  /\ truthy (rotationSpeed c) = true /\ truthy (orbitSpeed c) = true
  /\ truthy (ringColor c) = true
  /\ (truthy (orbitRadius c) = true \/ orbitRadius c = 0).
Proof.
  cbn. repeat split; try (apply or_default_truthy; reflexivity).
  unfold or_default. destruct (Params.orbitRadius p) as [x|]; [|now right].
  destruct (truthy x) eqn:E; [now left | now right].
Qed.

(** X2: a constructed config handed to the constructor again comes out
    unchanged. *)
Theorem PlanetConfig_constructor_again (p : Params.t) :
  PlanetConfig_constructor (as_params (PlanetConfig_constructor p))
  = PlanetConfig_constructor p.
Proof.
  unfold PlanetConfig_constructor at 1. unfold as_params.
  cbn [Params.radius Params.color Params.atmosphereColor
       Params.atmosphereThickness Params.atmosphereOpacity
       Params.orbitRadius Params.rotationSpeed Params.orbitSpeed
       Params.hasRings Params.ringColor Params.ringInnerRadius
       Params.ringOuterRadius].
  assert (Hac : or_default
                  (or_else (Some (atmosphereColor (PlanetConfig_constructor p)))
                           (Some (color (PlanetConfig_constructor p)))) white
                = atmosphereColor (PlanetConfig_constructor p)).
  { pose proof (atmosphereColor_truthy p) as Ht.
    unfold or_else. rewrite Ht. unfold or_default. now rewrite Ht. }
  rewrite Hac. unfold PlanetConfig_constructor.
  cbn [radius color atmosphereColor atmosphereThickness atmosphereOpacity
       orbitRadius rotationSpeed orbitSpeed hasRings ringColor
       ringInnerRadius ringOuterRadius].
  rewrite !or_default_again.
  f_equal. now destruct (Params.hasRings p) as [[|]|].
Qed.

(** X3: what [createPlanet] puts into the group of a constructed config:
    the atmosphere shell is left out exactly when the supplied opacity is
    below zero, the ring is added exactly when [hasRings: true] was
    supplied, and the planet mesh always comes last. *)
Theorem constructed_planet_children (p : Params.t) :
  let c := PlanetConfig_constructor p in
  children (new_planet c)
  = atmosphere_of c ++ rings_of c ++ [PlanetMesh (radius c) (color c)]
  /\ (atmosphere_of c = [] <->
      exists x, Params.atmosphereOpacity p = Some x /\ (x <? 0) = true)
  /\ (atmosphere_of c <> [] ->
      atmosphere_of c
      = [Atmosphere (radius c * (1 + atmosphereThickness c))
                    (atmosphereColor c) (atmosphereOpacity c)])
  /\ (rings_of c <> [] <-> Params.hasRings p = Some true)
  /\ last (children (new_planet c)) = Some (PlanetMesh (radius c) (color c)).
Proof.
  cbn zeta. split; [reflexivity|]. split; [|split; [|split]].
  - unfold atmosphere_of. cbn [atmosphereOpacity PlanetConfig_constructor].
    unfold or_default. destruct (Params.atmosphereOpacity p) as [x|].
    + destruct (truthy x) eqn:Ht.
      * rewrite (truthy_sign x Ht). destruct (x <? 0) eqn:Hneg; cbn.
        -- split; [eauto | reflexivity].
        -- split; [discriminate|]. intros (y & [= <-] & Hy). congruence.
      * split; [discriminate|]. intros (y & [= <-] & Hy).
        apply negative_truthy in Hy. congruence.
    + split; [discriminate|]. now intros (y & [=] & _).
  - unfold atmosphere_of.
    destruct (0 <? atmosphereOpacity (PlanetConfig_constructor p));
      [reflexivity | congruence].
  - unfold rings_of. cbn [hasRings PlanetConfig_constructor].
    destruct (Params.hasRings p) as [[|]|]; cbn; split; congruence.
  - cbn [children new_planet]. rewrite app_assoc. apply last_snoc.
Qed.

(* ================================================================== *)
(** ** More on the registry *)

Section Registry.
Variables cos_approx sin_approx : float -> float.

Local Abbreviation updatePlanets := (updatePlanets cos_approx sin_approx).
Local Abbreviation reachable := (reachable cos_approx sin_approx).

(** X4: [createPlanet] makes the new body retrievable under its name,
    with the config given and the fresh group the call returns, and leaves
    every other name's entry and group as they were. *)
Theorem createPlanet_registers (s : SolarSystem) (name : string)
    (cfg : PlanetConfig) :
  wf s ->
  let created := createPlanet name cfg s in
  JsMap.get name (planets (fst created))
  = Some {| group := snd created; config := cfg |}
  /\ body (fst created) name = Some (new_planet cfg)
  /\ forall other, other <> name ->
       JsMap.get other (planets (fst created)) = JsMap.get other (planets s)
       /\ body (fst created) other = body s other.
Proof.
  intros Hwf. cbn zeta.
  assert (Hget : JsMap.get name (planets (fst (createPlanet name cfg s)))
                 = Some {| group := length (planetGroup s); config := cfg |})
    by apply JsMapFacts.get_set_eq.
  split; [exact Hget|]. split.
  - unfold body. rewrite Hget. cbn.
    rewrite lookup_app_r by lia. now rewrite Nat.sub_diag.
  - intros other Hne.
    assert (Hother : JsMap.get other (planets (fst (createPlanet name cfg s)))
                     = JsMap.get other (planets s))
      by (apply JsMapFacts.get_set_ne; congruence).
    split; [exact Hother|]. unfold body. rewrite Hother.
    destruct (JsMap.get other (planets s)) as [e|] eqn:E; [|reflexivity].
    cbn. apply lookup_app_l. eapply wf_bound; [exact Hwf|].
    apply JsMapFacts.get_elem, E.
Qed.

(** X5: in every state the script can reach, a registered name is stored
    once and has its group, two names never share a group, there are at
    least as many groups as names, and every group is in the plane
    y = 0. *)
Theorem reachable_invariant (s : SolarSystem) :
  reachable s ->
  (forall name e, JsMap.get name (planets s) = Some e ->
     JsMap.count name (planets s) = 1%nat
     /\ exists g, body s name = Some g /\ position_y g = 0)
  /\ (forall n1 n2 e1 e2,
        JsMap.get n1 (planets s) = Some e1 ->
        JsMap.get n2 (planets s) = Some e2 ->
        n1 <> n2 -> group e1 <> group e2)
  /\ (length (planets s) <= length (planetGroup s))%nat
  /\ forall i g, planetGroup s !! i = Some g -> position_y g = 0.
Proof.
  intros Hwf%reachable_wf. repeat split.
  - eapply JsMapFacts.count_NoDup; [apply Hwf | eassumption].
  - destruct (body_registered s name e Hwf H) as [g Hg].
    exists g. split; [exact Hg|].
    unfold body in Hg. rewrite H in Hg. eapply wf_plane; eassumption.
  - intros n1 n2 e1 e2 H1 H2 Hne Heq.
    apply JsMapFacts.get_elem in H1, H2.
    apply list_elem_of_lookup in H1 as [i1 H1], H2 as [i2 H2].
    assert (Hi : i1 = i2).
    { eapply NoDup_lookup; [apply (wf_refs s Hwf)| |];
        unfold refs; rewrite list_lookup_fmap.
      - rewrite H1. reflexivity.
      - rewrite H2. cbn. now rewrite Heq. }
    subst i2. congruence.
  - pose proof (wf_refs s Hwf) as Hnd. pose proof (wf_bound s Hwf) as Hb.
    assert (Hlen : (length (refs (planets s)) <= length (planetGroup s))%nat).
    { transitivity (length (seq 0 (length (planetGroup s))));
        [|now rewrite length_seq].
      apply submseteq_length, NoDup_submseteq; [exact Hnd|].
      intros i ([k e] & -> & Hin)%list_elem_of_fmap.
      apply elem_of_seq. split; [lia|]. cbn. apply Hb in Hin. lia. }
    unfold refs in Hlen. now rewrite length_map in Hlen.
  - apply Hwf.
Qed.

(** X6: every [createPlanet] adds one group under [planetGroup]; on a new
    name the name goes to the end of the registry's iteration order, on a
    registered name the order stays and the old group is left behind. *)
Theorem createPlanet_accounting (s : SolarSystem) (name : string)
    (cfg : PlanetConfig) :
  let s' := fst (createPlanet name cfg s) in
  JsMap.keys (planets s')
  = match JsMap.get name (planets s) with
    | Some _ => JsMap.keys (planets s)
    | None => JsMap.keys (planets s) ++ [name]
    end
  /\ length (planetGroup s') = S (length (planetGroup s))
  /\ (forall i g, planetGroup s !! i = Some g -> planetGroup s' !! i = Some g)
  /\ sun_rotation_y s' = sun_rotation_y s.
Proof.
  cbn. repeat split.
  - apply JsMapFacts.keys_set.
  - rewrite length_app. cbn. lia.
  - intros i g Hg. apply lookup_app_l_Some, Hg.
Qed.
End Registry.

(* ================================================================== *)
(** ** More on the update and the frame loop *)

Lemma Math_cos_not_finite (c : float -> float) (a : float) :
  is_finite a = false -> Math_cos c a = nan.
Proof. unfold Math_cos. now intros ->. Qed.

Lemma Math_sin_not_finite (c : float -> float) (a : float) :
  is_finite a = false -> Math_sin c a = nan.
Proof. unfold Math_sin. now intros ->. Qed.

Lemma running_snoc (frames : list (Parameters.t * float))
    (f : Parameters.t * float) :
  running (frames ++ [f])
  = running frames ++ (if Parameters.autoRotate (fst f) then [f] else []).
Proof. unfold running. rewrite List.filter_app. cbn. now destruct f as [[[|] ?] ?]. Qed.

Lemma run_frames_snoc (c s : float -> float)
    (frames : list (Parameters.t * float)) (f : Parameters.t * float)
    (sys : SolarSystem) :
  run_frames c s (frames ++ [f]) sys
  = tick c s (fst f) (snd f) (run_frames c s frames sys).
Proof. unfold run_frames. now rewrite fold_left_app. Qed.

Lemma tick_running_eq (c s : float -> float) (f : Parameters.t * float)
    (sys : SolarSystem) :
  tick c s (fst f) (snd f) sys
  = if Parameters.autoRotate (fst f)
    then updatePlanets c s (frame_time f) sys else sys.
Proof. reflexivity. Qed.

Section Frames.
Variables cos_approx sin_approx : float -> float.

Local Abbreviation Math_cos := (Math_cos cos_approx).
Local Abbreviation Math_sin := (Math_sin sin_approx).
Local Abbreviation callback := (update_planet cos_approx sin_approx).
Local Abbreviation visit := (update_entry cos_approx sin_approx).
Local Abbreviation updatePlanets := (updatePlanets cos_approx sin_approx).
Local Abbreviation reachable := (reachable cos_approx sin_approx).
Local Abbreviation tick := (tick cos_approx sin_approx).
Local Abbreviation run_frames := (run_frames cos_approx sin_approx).

(** Two entries with different groups can be visited in either order. *)
Lemma visit_swap time h (p q : string * Entry) :
  group (snd p) <> group (snd q) ->
  visit time (visit time h p) q = visit time (visit time h q) p.
Proof. intros Hne. unfold update_entry. now apply list_alter_alter_ne. Qed.

Lemma forEach_permutation time (l l' : list (string * Entry)) :
  l ≡ₚ l' -> NoDup (refs l) ->
  forall h, fold_left (visit time) l h = fold_left (visit time) l' h.
Proof.
  induction 1 as [|x l l' Hp IH|x y l|l l' l'' Hp1 IH1 Hp2 IH2];
    intros Hnd h.
  - reflexivity.
  - cbn. apply IH. cbn in Hnd. now apply NoDup_cons in Hnd as [_ ?].
  - cbn. f_equal. apply visit_swap.
    cbn in Hnd. apply NoDup_cons in Hnd as [Hy _].
    intros Heq. apply Hy. rewrite Heq. left.
  - rewrite IH1 by exact Hnd. apply IH2.
    unfold refs in *. now rewrite <- Hp1.
Qed.

(** X7: the order in which [forEach] visits the registry does not show:
    with the entries in any other order, [updatePlanets] leaves the same
    groups. *)
Theorem updatePlanets_order (s : SolarSystem)
    (entries : list (string * Entry)) (time : float) :
  wf s -> entries ≡ₚ planets s ->
  planetGroup
    (updatePlanets time {| planets := entries;
                           planetGroup := planetGroup s;
                           sun_rotation_y := sun_rotation_y s |})
  = planetGroup (updatePlanets time s).
Proof.
  intros Hwf Hp. cbn. symmetry.
  apply forEach_permutation; [now symmetry | apply Hwf].
Qed.

(** X13: a call whose angle [time * orbitSpeed] is not finite (a NaN or
    infinite time, or an overflowing product) sets the body's x and z to
    NaN on every host; y stays 0 and the mesh still turns by its step. *)
Theorem updatePlanets_not_finite (s : SolarSystem) (name : string)
    (e : Entry) (g0 : Group) (time : float) :
  reachable s -> JsMap.get name (planets s) = Some e ->
  body s name = Some g0 ->
  is_finite (time * orbitSpeed (config e)) = false ->
  exists g, body (updatePlanets time s) name = Some g
    /\ position_x g = nan /\ position_z g = nan /\ position_y g = 0
    /\ mesh_rotation_y g = mesh_rotation_y g0 + rotationSpeed (config e).
Proof.
  intros Hwf%reachable_wf Hget Hg0 Hinf.
  exists (callback time (config e) g0).
  split; [now apply body_updatePlanets|]. unfold update_planet.
  cbn [position_x position_y position_z mesh_rotation_y].
  rewrite Math_cos_not_finite, Math_sin_not_finite, nan_mul by exact Hinf.
  repeat split.
  eapply wf_plane; [exact Hwf|]. unfold body in Hg0.
  rewrite Hget in Hg0. exact Hg0.
Qed.

Lemma run_frames_wf frames s : wf s -> wf (run_frames frames s).
Proof.
  intros Hwf. induction frames as [|f frames IH] using rev_ind; [exact Hwf|].
  rewrite run_frames_snoc, tick_running_eq.
  destruct (Parameters.autoRotate (fst f)); [now apply updatePlanets_wf|exact IH].
Qed.

Lemma run_frames_planets frames s : planets (run_frames frames s) = planets s.
Proof.
  induction frames as [|f frames IH] using rev_ind; [reflexivity|].
  rewrite run_frames_snoc, tick_running_eq.
  now destruct (Parameters.autoRotate (fst f)).
Qed.

(** What a run of frames leaves of a registered body. *)
Lemma run_frames_body frames s name e g0 :
  wf s -> JsMap.get name (planets s) = Some e -> body s name = Some g0 ->
  exists g, body (run_frames frames s) name = Some g
    /\ mesh_rotation_y g
       = Nat.iter (length (running frames))
                  (fun y => y + rotationSpeed (config e)) (mesh_rotation_y g0)
    /\ match last (running frames) with
       | Some f =>
           position_x g
           = Math_cos (frame_time f * orbitSpeed (config e))
             * orbitRadius (config e)
           /\ position_z g
              = Math_sin (frame_time f * orbitSpeed (config e))
                * orbitRadius (config e)
       | None => position_x g = position_x g0 /\ position_z g = position_z g0
       end.
Proof.
  intros Hwf Hget Hg0.
  induction frames as [|f frames IH] using rev_ind; [exists g0; now cbn|].
  destruct IH as (g & Hg & Hrot & Hpos).
  rewrite run_frames_snoc, tick_running_eq, running_snoc.
  destruct (Parameters.autoRotate (fst f)).
  - exists (callback (frame_time f) (config e) g). split; [|split].
    + apply body_updatePlanets;
        [now apply run_frames_wf | now rewrite run_frames_planets | exact Hg].
    + rewrite length_app, Nat.add_comm. cbn [length Nat.add].
      rewrite Nat.iter_succ, <- Hrot. reflexivity.
    + rewrite last_snoc. split; reflexivity.
  - exists g. rewrite app_nil_r. now repeat split.
Qed.

(** X8: after any run of frames a registered body's x and z are the ones
    computed from the time of the last frame that had [autoRotate] on,
    whatever happened before it; with no such frame they are
    untouched. *)
Theorem positions_follow_last_frame (s : SolarSystem) (name : string)
    (e : Entry) (g0 : Group) (frames : list (Parameters.t * float)) :
  reachable s -> JsMap.get name (planets s) = Some e ->
  body s name = Some g0 ->
  exists g, body (run_frames frames s) name = Some g
    /\ match last (running frames) with
       | Some f =>
           position_x g
           = Math_cos (frame_time f * orbitSpeed (config e))
             * orbitRadius (config e)
           /\ position_z g
              = Math_sin (frame_time f * orbitSpeed (config e))
                * orbitRadius (config e)
       | None => position_x g = position_x g0 /\ position_z g = position_z g0
       end.
Proof.
  intros Hwf%reachable_wf Hget Hg0.
  destruct (run_frames_body frames s name e g0 Hwf Hget Hg0)
    as (g & Hg & _ & Hpos).
  eauto.
Qed.

Lemma run_frames_sun frames s :
  sun_rotation_y (run_frames frames s)
  = Nat.iter (length (running frames)) (fun y => y + 0.001)
             (sun_rotation_y s).
Proof.
  induction frames as [|f frames IH] using rev_ind; [reflexivity|].
  rewrite run_frames_snoc, tick_running_eq, running_snoc.
  destruct (Parameters.autoRotate (fst f)).
  - rewrite length_app, Nat.add_comm. cbn [length Nat.add].
    rewrite Nat.iter_succ, <- IH. reflexivity.
  - now rewrite app_nil_r.
Qed.

(** X9: over any run of frames the spins count the frames that had
    [autoRotate] on: the sun's [rotation.y] has had 0.001 added once per
    such frame and a registered body's mesh its [rotationSpeed] once per
    such frame, whatever the clock and the speed multiplier were. *)
Theorem spins_count_running_frames (s : SolarSystem) (name : string)
    (e : Entry) (g0 : Group) (frames : list (Parameters.t * float)) :
  reachable s -> JsMap.get name (planets s) = Some e ->
  body s name = Some g0 ->
  sun_rotation_y (run_frames frames s)
  = Nat.iter (length (running frames)) (fun y => y + 0.001)
             (sun_rotation_y s)
  /\ exists g, body (run_frames frames s) name = Some g
       /\ mesh_rotation_y g
          = Nat.iter (length (running frames))
                     (fun y => y + rotationSpeed (config e))
                     (mesh_rotation_y g0).
Proof.
  intros Hwf%reachable_wf Hget Hg0. split; [apply run_frames_sun|].
  destruct (run_frames_body frames s name e g0 Hwf Hget Hg0)
    as (g & Hg & Hrot & _).
  eauto.
Qed.
End Frames.

(* ================================================================== *)
(** ** Stars, orbit guides and the viewport *)

Section StarField.
Variable fround : float -> float.
Variable random : nat -> float.
Variable uuid_draws : nat.

Local Abbreviation pass := (star_pass fround random).
Local Abbreviation loop := (stars_loop fround random).
Local Abbreviation filled := (star_filled fround random uuid_draws).

Lemma star_pass_lengths i calls st :
  length (positions (pass i calls st)) = length (positions st)
  /\ length (sizes (pass i calls st)) = length (sizes st).
Proof. unfold star_pass. cbn. now rewrite !length_insert. Qed.

(** One pass fills star [k] and leaves every other slot. *)
Lemma star_pass_slots k st :
  (k * 3 + 2 < length (positions st))%nat -> (k < length (sizes st))%nat ->
  filled (pass (k * 3) (uuid_draws + k * 4) st) k
  /\ (forall i, (i < k * 3)%nat ->
        positions (pass (k * 3) (uuid_draws + k * 4) st) !! i
        = positions st !! i)
  /\ (forall j, (j < k)%nat ->
        sizes (pass (k * 3) (uuid_draws + k * 4) st) !! j = sizes st !! j).
Proof.
  intros Hp Hs. unfold star_pass, star_filled. cbn [positions sizes].
  rewrite Nat.div_mul by lia. repeat split.
  - rewrite !list_lookup_insert_ne by lia.
    apply list_lookup_insert_eq. lia.
  - rewrite list_lookup_insert_ne by lia.
    apply list_lookup_insert_eq. rewrite length_insert. lia.
  - apply list_lookup_insert_eq. rewrite !length_insert. lia.
  - apply list_lookup_insert_eq. lia.
  - intros i Hi. now rewrite !list_lookup_insert_ne by lia.
  - intros j Hj. now rewrite list_lookup_insert_ne by lia.
Qed.

(** The loop from star [k] on, [m] stars to go. *)
Lemma stars_loop_spec n m :
  forall k fuel st,
  (m < fuel)%nat -> (k + m = n)%nat ->
  length (positions st) = (n * 3)%nat -> length (sizes st) = n ->
  snd (loop fuel (k * 3) (n * 3) (uuid_draws + k * 4) st)
  = (uuid_draws + n * 4)%nat
  /\ length (positions
               (fst (loop fuel (k * 3) (n * 3) (uuid_draws + k * 4) st)))
     = (n * 3)%nat
  /\ length (sizes (fst (loop fuel (k * 3) (n * 3) (uuid_draws + k * 4) st)))
     = n
  /\ (forall j, (k <= j < n)%nat ->
        filled (fst (loop fuel (k * 3) (n * 3) (uuid_draws + k * 4) st)) j)
  /\ (forall i, (i < k * 3)%nat ->
        positions (fst (loop fuel (k * 3) (n * 3) (uuid_draws + k * 4) st))
          !! i
        = positions st !! i)
  /\ (forall j, (j < k)%nat ->
        sizes (fst (loop fuel (k * 3) (n * 3) (uuid_draws + k * 4) st)) !! j
        = sizes st !! j).
Proof.
  induction m as [|m IH]; intros k fuel st Hfuel Hk Hp Hs;
    (destruct fuel as [|fuel]; [lia|]); cbn [stars_loop].
  - assert (k = n) by lia. subst k.
    rewrite Nat.ltb_irrefl. cbn [fst snd].
    split_and!; try assumption; try (intros; reflexivity).
    intros j Hj. lia.
  - assert (Hlt : (k * 3 <? n * 3)%nat = true) by (apply Nat.ltb_lt; lia).
    rewrite Hlt.
    replace (k * 3 + 3)%nat with (S k * 3)%nat by lia.
    replace (uuid_draws + k * 4 + 4)%nat
      with (uuid_draws + S k * 4)%nat by lia.
    destruct (star_pass_lengths (k * 3) (uuid_draws + k * 4) st)
      as [Hp' Hs'].
    destruct (star_pass_slots k st) as (Hfill & Hpos & Hsz); [lia | lia |].
    destruct (IH (S k) fuel (pass (k * 3) (uuid_draws + k * 4) st))
      as (Hc & Hlp & Hls & Hf & Hup & Hus); [lia | lia | congruence
                                             | congruence |].
    split_and!; try assumption.
    + intros j Hj. destruct (decide (j = k)) as [->|Hne]; [|apply Hf; lia].
      destruct Hfill as (H0 & H1 & H2 & H3).
      unfold star_filled. rewrite !Hup, Hus by lia. now repeat split.
    + intros i Hi. rewrite Hup by lia. apply Hpos, Hi.
    + intros j Hj. rewrite Hus by lia. apply Hsz, Hj.
Qed.

(** The loop ends by its own test: more fuel changes nothing. *)
Lemma stars_loop_fuel n m :
  forall k fuel fuel' calls st,
  (m < fuel)%nat -> (m < fuel')%nat -> (k + m = n)%nat ->
  loop fuel (k * 3) (n * 3) calls st = loop fuel' (k * 3) (n * 3) calls st.
Proof.
  induction m as [|m IH]; intros k fuel fuel' calls st Hf Hf' Hk;
    (destruct fuel as [|fuel]; [lia|]);
    (destruct fuel' as [|fuel']; [lia|]); cbn [stars_loop].
  - assert (k = n) by lia. subst k. now rewrite Nat.ltb_irrefl.
  - destruct (k * 3 <? n * 3)%nat; [|reflexivity].
    replace (k * 3 + 3)%nat with (S k * 3)%nat by lia.
    apply IH; lia.
Qed.

(** X10: with [u] the number of [Math.random] calls one THREE.js uuid
    takes, [createStars] makes [u] calls for its geometry, then four per
    star in its loop, then [2u] for the material and the points object; the
    loop fills every slot of both arrays: star [k] has its x, y, z at 3k,
    3k+1, 3k+2 and its size at k, from the calls u+4k to u+4k+3 in that
    order; no slot is skipped or written twice, and the loop stops by its
    own test. *)
Theorem createStars_fills (starsCount : nat) :
  let stars := createStars_of fround random uuid_draws starsCount in
  snd stars = (uuid_draws + starsCount * 4 + uuid_draws + uuid_draws)%nat
  /\ length (positions (fst stars)) = (starsCount * 3)%nat
  /\ length (sizes (fst stars)) = starsCount
  /\ (forall k, (k < starsCount)%nat -> filled (fst stars) k)
  /\ forall fuel, (starsCount < fuel)%nat ->
       loop fuel 0 (starsCount * 3) uuid_draws
            {| positions := replicate (starsCount * 3) 0;
               sizes := replicate starsCount 0 |}
       = (fst stars, (uuid_draws + starsCount * 4)%nat).
Proof.
  cbn zeta. unfold createStars_of. cbn [fst snd].
  pose proof (stars_loop_spec starsCount starsCount 0 (S starsCount)
                {| positions := replicate (starsCount * 3) 0;
                   sizes := replicate starsCount 0 |}) as H.
  cbn [positions sizes Nat.mul] in H. rewrite Nat.add_0_r in H.
  destruct H as (Hc & Hlp & Hls & Hf & _);
    rewrite ?length_replicate; try lia.
  split_and!; try assumption.
  - now rewrite Hc.
  - intros k Hk. apply Hf. lia.
  - intros fuel Hfuel.
    rewrite (stars_loop_fuel starsCount starsCount 0 fuel (S starsCount))
      by lia.
    cbn [Nat.mul]. rewrite <- Hc. now destruct (stars_loop _ _ _ _ _ _ _).
Qed.
End StarField.

(** X11: [createOrbitLines] makes eight guide rings, stopping by its own
    test; each is a band of non-empty width, the bands follow one another
    outwards without touching, the innermost lies outside the sun's glow,
    and the planet at the same place of [planetConfigs] has its orbit
    radius strictly inside the band. *)
Theorem orbit_guides :
  length createOrbitLines = 8%nat
  /\ (forall fuel, (8 < fuel)%nat -> orbit_loop fuel 0 [] = createOrbitLines)
  /\ (forall k inner outer,
        createOrbitLines !! k = Some (inner, outer) ->
        (glow_radius createSun <? inner) = true
        /\ (inner <? outer) = true
        /\ forall inner' outer',
             createOrbitLines !! S k = Some (inner', outer') ->
             (outer <? inner') = true)
  /\ forall k name cfg,
       planetConfigs !! k = Some (name, cfg) ->
       exists inner outer,
         createOrbitLines !! k = Some (inner, outer)
         /\ (inner <? orbitRadius cfg) = true
         /\ (orbitRadius cfg <? outer) = true.
Proof.
  split_and!.
  - reflexivity.
  - intros fuel Hfuel.
    do 9 (destruct fuel as [|fuel]; [lia|]). reflexivity.
  - intros k inner outer Hk.
    do 8 (destruct k as [|k];
          [injection Hk as <- <-; split_and!; try reflexivity;
           intros inner' outer' [= <- <-]; reflexivity|]).
    discriminate Hk.
  - intros k name cfg Hk.
    do 8 (destruct k as [|k];
          [injection Hk as <- <-; eexists _, _; split_and!; reflexivity|]).
    discriminate Hk.
Qed.

(** X12: after a resize the viewport is the one start-up would build for
    that window, whatever it was before: the renderer has the size of
    [sizes], the camera the aspect width / height, and the pixel ratio is
    the device's below 2 and 2 otherwise, so never above 2. *)
Theorem resize_viewport (w : Window) (v : Viewport) :
  is_nan (devicePixelRatio w) = false ->
  let v' := resize w v in
  v' = viewport_init w
  /\ renderer_width v' = sizes_width v'
  /\ renderer_height v' = sizes_height v'
  /\ camera_aspect v' = sizes_width v' / sizes_height v'
  /\ renderer_pixelRatio v'
     = (if devicePixelRatio w <? 2 then devicePixelRatio w else 2)
  /\ (renderer_pixelRatio v' <=? 2) = true.
Proof.
  intros Hn. cbn. rewrite (Math_min_two _ Hn). split_and!; try reflexivity.
  destruct (devicePixelRatio w <? 2) eqn:E; [now apply ltb_leb | reflexivity].
Qed.

(* ================================================================== *)
(** ** The further properties on concrete runs *)

Lemma solarSystem_wf : wf solarSystem.
Proof.
  exact (reachable_wf cos_sample sin_sample _ (solarSystem_reachable _ _)).
Qed.

Lemma createPlanet_registers_witness :
  let created :=
    createPlanet "pluto" (PlanetConfig_constructor Params.empty)
                 solarSystem in
  JsMap.get "pluto" (planets (fst created))
  = Some {| group := snd created;
            config := PlanetConfig_constructor Params.empty |}
  /\ body (fst created) "pluto"
     = Some (new_planet (PlanetConfig_constructor Params.empty))
  /\ forall other, other <> "pluto"%string ->
       JsMap.get other (planets (fst created))
       = JsMap.get other (planets solarSystem)
       /\ body (fst created) other = body solarSystem other.
Proof.
  exact (createPlanet_registers solarSystem "pluto"
           (PlanetConfig_constructor Params.empty) solarSystem_wf).
Defined.

Lemma reachable_invariant_witness :
  (forall name e, JsMap.get name (planets solarSystem) = Some e ->
     JsMap.count name (planets solarSystem) = 1%nat
     /\ exists g, body solarSystem name = Some g /\ position_y g = 0)
  /\ (forall n1 n2 e1 e2,
        JsMap.get n1 (planets solarSystem) = Some e1 ->
        JsMap.get n2 (planets solarSystem) = Some e2 ->
        n1 <> n2 -> group e1 <> group e2)
  /\ (length (planets solarSystem) <= length (planetGroup solarSystem))%nat
  /\ forall i g, planetGroup solarSystem !! i = Some g -> position_y g = 0.
Proof.
  exact (reachable_invariant cos_sample sin_sample solarSystem
           (solarSystem_reachable _ _)).
Defined.

Lemma updatePlanets_order_witness :
  planetGroup
    (updatePlanets cos_sample sin_sample 1000
       {| planets := rev (planets solarSystem);
          planetGroup := planetGroup solarSystem;
          sun_rotation_y := sun_rotation_y solarSystem |})
  = planetGroup (updatePlanets cos_sample sin_sample 1000 solarSystem).
Proof.
  apply (updatePlanets_order cos_sample sin_sample solarSystem
           (rev (planets solarSystem)) 1000 solarSystem_wf).
  symmetry. apply Permutation_rev.
Defined.

Lemma updatePlanets_not_finite_witness :
  exists g,
    body (updatePlanets cos_sample sin_sample 10 probe_system) "probe"
    = Some g
    /\ position_x g = nan /\ position_z g = nan /\ position_y g = 0
    /\ mesh_rotation_y g = 0 + 0.005.
Proof.
  exact (updatePlanets_not_finite cos_sample sin_sample probe_system "probe"
           {| group := 0; config := PlanetConfig_constructor fast_spinner |}
           (new_planet (PlanetConfig_constructor fast_spinner)) 10
           (reachable_create _ _ _ _ _ (reachable_new _ _))
           eq_refl eq_refl eq_refl).
Defined.

Lemma positions_follow_last_frame_witness :
  exists g,
    body (run_frames cos_sample sin_sample mixed_frames solarSystem) "earth"
    = Some g
    /\ match last (running mixed_frames) with
       | Some f =>
           position_x g
           = Math_cos cos_sample (frame_time f * 0.006) * 45
           /\ position_z g
              = Math_sin sin_sample (frame_time f * 0.006) * 45
       | None => position_x g = 0 /\ position_z g = 0
       end.
Proof.
  exact (positions_follow_last_frame cos_sample sin_sample solarSystem
           "earth" earth_entry (new_planet (config earth_entry)) mixed_frames
           (solarSystem_reachable _ _) eq_refl eq_refl).
Defined.

Lemma spins_count_running_frames_witness :
  sun_rotation_y (run_frames cos_sample sin_sample mixed_frames solarSystem)
  = Nat.iter (length (running mixed_frames)) (fun y => y + 0.001) 0
  /\ exists g,
       body (run_frames cos_sample sin_sample mixed_frames solarSystem)
            "earth" = Some g
       /\ mesh_rotation_y g
          = Nat.iter (length (running mixed_frames)) (fun y => y + 0.005) 0.
Proof.
  exact (spins_count_running_frames cos_sample sin_sample solarSystem
           "earth" earth_entry (new_planet (config earth_entry)) mixed_frames
           (solarSystem_reachable _ _) eq_refl eq_refl).
Defined.

Lemma resize_viewport_witness :
  let v' := resize dense_window (viewport_init dense_window) in
  v' = viewport_init dense_window
  /\ renderer_width v' = sizes_width v'
  /\ renderer_height v' = sizes_height v'
  /\ camera_aspect v' = sizes_width v' / sizes_height v'
  /\ renderer_pixelRatio v' = (if 3 <? 2 then 3 else 2)
  /\ (renderer_pixelRatio v' <=? 2) = true.
Proof.
  exact (resize_viewport dense_window (viewport_init dense_window) eq_refl).
Defined.

(** The frames of [mixed_frames] that run are the first and the third;
    the third hands [updatePlanets] the time 1033 * 0.001 * 2.5. *)
Example mixed_frames_running :
  length (running mixed_frames) = 2%nat
  /\ frame_time <$> last (running mixed_frames) = Some (1033 * 0.001 * 2.5).
Proof. split; reflexivity. Qed.

Lemma createStars_of_calls (fround : float -> float) (random : nat -> float)
    (u n : nat) :
  snd (createStars_of fround random u n) = (u + n * 4 + u + u)%nat
  /\ forall k, (k < n)%nat ->
       star_filled fround random u (fst (createStars_of fround random u n)) k.
Proof.
  unfold createStars_of. cbn [fst snd].
  pose proof (stars_loop_spec fround random u n n 0 (S n)
                {| positions := replicate (n * 3) 0;
                   sizes := replicate n 0 |}) as H.
  cbn [positions sizes Nat.mul] in H. rewrite Nat.add_0_r in H.
  destruct H as (Hc & _ & _ & Hf & _); rewrite ?length_replicate; try lia.
  split; [now rewrite Hc | intros k Hk; apply Hf; lia].
Qed.

(** With three.js's four draws per uuid, the script's [createStars] has
    called [Math.random] 8012 times when it returns, and its first star is
    made from the calls 4 to 7. *)
Example createStars_calls (fround : float -> float) (random : nat -> float) :
  snd (createStars fround random 4) = 8012%nat
  /\ star_filled fround random 4 (fst (createStars fround random 4)) 0.
Proof.
  unfold createStars.
  destruct (createStars_of_calls fround random 4 2000) as [Hc Hf].
  split; [rewrite Hc; reflexivity | apply Hf; lia].
Qed.
